(** * FileScannerApp: scanner, workers and size formatting

    A shallow embedding of
      - [models/file_item.py]      (FileItem, format_size),
      - [services/file_scanner.py] (FileScanner),
      - [workers/*.py]             (ScanWorker, CalculateWorker, BackupWorker),
      - [views/main_window.py]     (_start_worker, stop_scan),
    followed by the properties of the specification that concern them.

    Conventions.  Python integers are [Z].  The [stopped] attribute of the
    scanner is shared with the user-interface thread; every read of it by a
    worker goes through [get_stopped], and the moment at which the other
    thread calls [stop()] is a parameter of the run ([stop_in]).  Qt signals
    are the elements of an event list, in emission order. *)

From Stdlib Require Import ZArith List String Ascii Bool Lia QArith Qround Qabs Lqa.
From Stdlib Require Import DecimalString Sorted.
Import ListNotations.

Set Warnings "-register-all".

Open Scope string_scope.
Open Scope list_scope.
Open Scope Z_scope.

(* ===================================================================== *)
(** ** models/file_item.py *)
(* ===================================================================== *)

(** The four values the [status] string takes in the sources:
    "未计算" (default), "已计算", "已取消", "计算错误". *)
Inductive Status := NotComputed | Computed | Cancelled | CalcFailed.

Record FileItem := mkFileItem {
  name : string;
  path : string;
  is_directory : bool;
  size : option Z;        (* Optional[int] = None *)
  file_count : option Z;  (* Optional[int] = 0 *)
  status : Status;        (* str = "未计算" *)
  checked : bool
}.

(** [FileItem(name=..., path=..., is_directory=True)]: the remaining fields
    take the defaults of the dataclass. *)
Definition new_FileItem (nm p : string) : FileItem :=
  {| name := nm; path := p; is_directory := true;
     size := None; file_count := Some 0; status := NotComputed;
     checked := false |}.

Definition set_size (v : Z) (it : FileItem) : FileItem :=
  {| name := name it; path := path it; is_directory := is_directory it;
     size := Some v; file_count := file_count it; status := status it;
     checked := checked it |}.

Definition set_file_count (v : Z) (it : FileItem) : FileItem :=
  {| name := name it; path := path it; is_directory := is_directory it;
     size := size it; file_count := Some v; status := status it;
     checked := checked it |}.

Definition set_status (v : Status) (it : FileItem) : FileItem :=
  {| name := name it; path := path it; is_directory := is_directory it;
     size := size it; file_count := file_count it; status := v;
     checked := checked it |}.

(** *** format_size

    [size = float(self.size)] followed by divisions by 1024: for a size
    below 2^53 the conversion is exact, and dividing a binary float by a
    power of two is exact, so the value of [size] is the rational
    [self.size / 1024^unit_index]; [Q] holds exactly that.  The
    [f"{size:.2f}"] conversion rounds the exact value to the nearest
    hundredth, ties to the even neighbour. *)

Definition units : list string := ["B"; "KB"; "MB"; "GB"; "TB"].

(** The [while size >= 1024 and unit_index < len(units) - 1] loop; it runs
    at most [len(units) - 1] times, which is the fuel. *)
Fixpoint scale_loop (fuel : nat) (sz : Q) (unit_index : nat) : Q * nat :=
  match fuel with
  | O => (sz, unit_index)
  | S fuel' =>
      if Qle_bool 1024 sz && (unit_index <? List.length units - 1)%nat
      then scale_loop fuel' (sz / 1024)%Q (S unit_index)
      else (sz, unit_index)
  end.

(** Nearest integer, ties to even. *)
Definition round_half_even (q : Q) : Z :=
  let f := Qfloor q in
  match Qcompare (q - inject_Z f)%Q (1 # 2)%Q with
  | Lt => f
  | Gt => f + 1
  | Eq => if Z.even f then f else f + 1
  end.

Definition digits (n : Z) : string :=
  NilZero.string_of_uint (N.to_uint (Z.to_N n)).

Definition two_digits (n : Z) : string :=
  if n <? 10 then ("0" ++ digits n)%string else digits n.

(** ["{:.2f}"] on a non-negative value. *)
Definition fmt_2f (q : Q) : string :=
  let h := round_half_even (q * 100)%Q in
  (digits (h / 100) ++ "." ++ two_digits (h mod 100))%string.

Definition NOT_COMPUTED_TEXT : string := "未计算".

Definition format_size_of (sz : option Z) : string :=
  match sz with
  | None => NOT_COMPUTED_TEXT
  | Some n =>
      let '(v, unit_index) :=
        scale_loop (List.length units - 1) (inject_Z n) 0 in
      (fmt_2f v ++ " " ++ nth unit_index units EmptyString)%string
  end.

Definition format_size (it : FileItem) : string := format_size_of (size it).

(* ===================================================================== *)
(** ** The scanner object and its [stopped] flag *)
(* ===================================================================== *)

(** [stopped] is the attribute of [FileScanner].  [stop_in] is not in the
    source: it stands for the user-interface thread, which calls [stop()]
    once, at a moment that falls between two reads of the flag by the
    worker.  [Some k]: the call lands after [k] more reads; [None]: no call
    is coming. *)
Record FileScanner := mkScanner {
  stopped : bool;
  stop_in : option nat
}.

Definition M (A : Type) : Type := FileScanner -> A * FileScanner.

Definition ret {A} (a : A) : M A := fun s => (a, s).

Definition bind {A B} (m : M A) (k : A -> M B) : M B :=
  fun s => let '(a, s') := m s in k a s'.

Notation "x <- m ;; k" := (bind m (fun x => k))
  (at level 61, m at next level, right associativity).
Notation "m ;;; k" := (bind m (fun _ => k))
  (at level 61, right associativity).

(** [def stop(self): self.stopped = True] *)
Definition stop : M unit :=
  fun s => (tt, {| stopped := true; stop_in := stop_in s |}).

(** A read of [self.stopped] by the worker thread. *)
Definition get_stopped : M bool :=
  fun s =>
    match stop_in s with
    | Some O => (true, {| stopped := true; stop_in := None |})
    | Some (S k) => (stopped s, {| stopped := stopped s; stop_in := Some k |})
    | None => (stopped s, s)
    end.

(** [self.stopped = False] *)
Definition clear_stopped : M unit :=
  fun s => (tt, {| stopped := false; stop_in := stop_in s |}).

(* ===================================================================== *)
(** ** The file system seen by [os.scandir], [os.walk], [os.path.getsize] *)
(* ===================================================================== *)

(** What is found under a name.  [File ino sz st]: a regular file, one
    name of the inode [ino], of [sz] bytes; [st = false] when [os.stat]
    fails on this name (permission, removal during the walk).
    [Symlink own t]: a link whose own size (that of [lstat]) is [own].
    [Dir listable es]: [listable = false] when [os.scandir] fails on the
    directory.

    What a symbolic link points to: a file of a given size, a directory
    (given, like [Dir], with what a listing through the link shows), or
    nothing (dangling link). *)
Inductive node :=
| File (ino : nat) (st_size : Z) (stat_ok : bool)
| Symlink (own_size : Z) (target : link_target)
| Dir (listable : bool) (entries : list (string * node))
with link_target :=
| ToFile (target_size : Z)
| ToDir (listable : bool) (entries : list (string * node))
| Dangling.

(** [DirEntry.is_dir()], which follows symbolic links. *)
Definition is_dir (n : node) : bool :=
  match n with
  | Dir _ _ => true
  | Symlink _ (ToDir _ _) => true
  | _ => false
  end.

(** [os.path.islink] *)
Definition islink (n : node) : bool :=
  match n with Symlink _ _ => true | _ => false end.

(** [os.path.getsize(p)] is [os.stat(p).st_size]: it follows symbolic
    links; [None] when it raises [OSError].  Directories never reach it in
    this program ([os.walk] lists them under [dirs]); their own size plays
    no role and is taken to be 0. *)
Definition getsize (n : node) : option Z :=
  match n with
  | File _ sz true => Some sz
  | File _ _ false => None
  | Symlink _ (ToFile sz) => Some sz
  | Symlink _ (ToDir _ _) => Some 0
  | Symlink _ Dangling => None
  | Dir _ _ => Some 0
  end.

Definition starts_with_slash (s : string) : bool :=
  match s with
  | String c _ => Ascii.eqb c "/"
  | EmptyString => false
  end.

Fixpoint ends_with_slash (s : string) : bool :=
  match s with
  | EmptyString => false
  | String c EmptyString => Ascii.eqb c "/"
  | String _ r => ends_with_slash r
  end.

(** [os.path.join(root, nm)] ([posixpath]): [nm] alone when it is
    absolute; otherwise [root] and [nm], with a separator between them
    unless [root] is empty or ends with one. *)
Definition join (root nm : string) : string :=
  if starts_with_slash nm then nm
  else if match root with
          | EmptyString => true
          | _ => ends_with_slash root
          end
       then (root ++ nm)%string
       else (root ++ "/" ++ nm)%string.

Definition dirs_of (es : list (string * node)) : list string :=
  map fst (filter (fun e => is_dir (snd e)) es).

(** The non-directories of a listing.  [os.walk] yields their names; the
    entry is kept next to the name, standing for what
    [os.path.join(root, file)] designates. *)
Definition nondirs_of (es : list (string * node)) : list (string * node) :=
  filter (fun e => negb (is_dir (snd e))) es.

Definition triple : Type := string * list string * list (string * node).

(** [os.walk(top)] with its defaults ([topdown=True], [onerror=None],
    [followlinks=False]).  [top] itself is listed by [os.scandir(top)],
    which goes through a symbolic link: a [top] that is a link to a
    directory is walked like that directory.  A directory that cannot be
    listed yields nothing and is skipped silently.  Among the entries of a
    listing, a symbolic link to a directory is reported in [dirs] but not
    entered ([if followlinks or not islink(new_path)]). *)
Fixpoint os_walk (top : string) (n : node) : list triple :=
  match n with
  | Dir true es | Symlink _ (ToDir true es) =>
      (top, dirs_of es, nondirs_of es) ::
      (fix sub (l : list (string * node)) : list triple :=
         match l with
         | [] => []
         | (nm, c) :: l' =>
             (if is_dir c && negb (islink c)
              then os_walk (join top nm) c else []) ++ sub l'
         end) es
  | _ => []
  end.

(** A path holding a NUL character is refused by [os.scandir] with
    [ValueError], which is not an [OSError]: [os.walk] lets it through. *)
Definition embedded_null (p : string) : bool :=
  existsb (fun c => Ascii.eqb c zero) (list_ascii_of_string p).

(** The tree found at an absolute path, if any. *)
Definition filesystem : Type := string -> option node.

(** [os.walk(path)] from the caller's side: [None] when iterating raises,
    the yielded triples otherwise (none for a missing or unreadable top). *)
Definition walk (fs : filesystem) (p : string) : option (list triple) :=
  if embedded_null p then None
  else Some (match fs p with Some n => os_walk p n | None => [] end).

(* ===================================================================== *)
(** ** services/file_scanner.py: calculate_directory_info *)
(* ===================================================================== *)

(** [for file in files: ...] with the running [(total_size, file_count)]. *)
Fixpoint files_loop (files : list (string * node)) (acc : Z * Z) : M (Z * Z) :=
  match files with
  | [] => ret acc
  | (_, f) :: rest =>
      s <- get_stopped ;;
      if s then ret acc                                   (* break *)
      else match getsize f with
           | Some sz => files_loop rest (fst acc + sz, snd acc + 1)
           | None => files_loop rest acc                  (* logged *)
           end
  end.

(** [for root, dirs, files in os.walk(item.path): ...] *)
Fixpoint walk_loop (ts : list triple) (acc : Z * Z) : M (Z * Z) :=
  match ts with
  | [] => ret acc
  | (_, _, files) :: rest =>
      s <- get_stopped ;;
      if s then ret acc                                   (* break *)
      else acc' <- files_loop files acc ;; walk_loop rest acc'
  end.

(** [calculate_directory_info].  The outer [except] is reached only when
    the walk itself raises; the errors of single files are handled in the
    inner loop. *)
Definition calculate_directory_info (fs : filesystem) (item : FileItem)
  : M FileItem :=
  match walk fs (path item) with
  | Some ts =>
      acc <- walk_loop ts (0, 0) ;;         (* (total_size, file_count) *)
      let item := set_size (fst acc) item in
      let item := set_file_count (snd acc) item in
      s <- get_stopped ;;
      ret (set_status (if negb s then Computed else Cancelled) item)
  | None =>
      ret (set_status CalcFailed item)                    (* except *)
  end.

(** The same method, with the successive values of [item] while it runs:
    the item as received, then the item after each assignment to one of
    its attributes. *)
Definition calculate_steps (fs : filesystem) (item : FileItem)
  : M (list FileItem) :=
  match walk fs (path item) with
  | Some ts =>
      acc <- walk_loop ts (0, 0) ;;
      let i1 := set_size (fst acc) item in
      let i2 := set_file_count (snd acc) i1 in
      s <- get_stopped ;;
      let i3 := set_status (if negb s then Computed else Cancelled) i2 in
      ret [item; i1; i2; i3]
  | None =>
      ret [item; set_status CalcFailed item]
  end.

(* ===================================================================== *)
(** ** workers/calculate_worker.py *)
(* ===================================================================== *)

(** Signals of [CalculateWorker].  [finished = pyqtSignal()] carries no
    argument.  The fourth argument of [progress], a speed derived from the
    wall clock, is left out. *)
Inductive CalcEvent :=
| CalcProgress (item : FileItem) (current total : nat)
| CalcFinished
| CalcErrorSignal.

(** [for i, item in enumerate(self.items, 1): ...]; returns the items after
    the loop (they are updated in place) and the progress signals. *)
Fixpoint calc_loop (fs : filesystem) (items : list FileItem) (i total : nat)
  : M (list FileItem * list CalcEvent) :=
  match items with
  | [] => ret ([], [])
  | item :: rest =>
      s <- get_stopped ;;
      if s then ret (items, [])                           (* break *)
      else
        item' <- calculate_directory_info fs item ;;
        r <- calc_loop fs rest (S i) total ;;
        ret (item' :: fst r, CalcProgress item' i total :: snd r)
  end.

(** [CalculateWorker.run].  [calculate_directory_info] catches every
    exception, so the [except] branch of [run] is not reached. *)
Definition CalculateWorker_run (fs : filesystem) (items : list FileItem)
  : M (list FileItem * list CalcEvent) :=
  r <- calc_loop fs items 1 (List.length items) ;;
  ret (fst r, snd r ++ [CalcFinished]).

(* ===================================================================== *)
(** ** services/file_scanner.py: scan_directory; workers/scan_worker.py *)
(* ===================================================================== *)

(** Signals of [ScanWorker]. *)
Inductive ScanEvent :=
| FileFound (item : FileItem)
| ScanFinished (success : bool)
| ScanErrorSignal.

(** [os.scandir(path)]: the listing, or [None] when it raises (missing
    path, not a directory, unreadable, NUL in the path).  A path that is a
    symbolic link to a directory lists that directory. *)
Definition scandir (fs : filesystem) (p : string)
  : option (list (string * node)) :=
  if embedded_null p then None
  else match fs p with
       | Some (Dir true es) | Some (Symlink _ (ToDir true es)) => Some es
       | _ => None
       end.

(** [scan_directory] is a generator.  It is given here by what it does
    with the body of the [for] loop that consumes it: the generator runs up
    to its [yield], the body of the consumer runs on the yielded item, and
    so on; the body answers [None] when it leaves its loop by [break],
    after which the generator is not resumed. *)
Fixpoint scan_entries {A : Type} (root : string) (es : list (string * node))
    (body : FileItem -> M (option A)) : M (list A) :=
  match es with
  | [] => ret []
  | (nm, c) :: rest =>
      s <- get_stopped ;;
      if s then ret []                                    (* break *)
      else if is_dir c then
        r <- body (new_FileItem nm (join root nm)) ;;     (* yield item *)
        match r with
        | Some a => l <- scan_entries root rest body ;; ret (a :: l)
        | None => ret []
        end
      else scan_entries root rest body
  end.

(** [None] when the generator raises (the error is logged and raised
    again). *)
Definition scan_directory {A : Type} (fs : filesystem) (p : string)
    (body : FileItem -> M (option A)) : M (option (list A)) :=
  clear_stopped ;;;
  match scandir fs p with
  | Some es => l <- scan_entries p es body ;; ret (Some l)
  | None => ret None
  end.

(** The body of the loop of [ScanWorker.run]. *)
Definition file_found_body (item : FileItem) : M (option ScanEvent) :=
  s <- get_stopped ;;
  if s then ret None                                      (* break *)
  else ret (Some (FileFound item)).

(** [ScanWorker.run] *)
Definition ScanWorker_run (fs : filesystem) (p : string) : M (list ScanEvent) :=
  r <- scan_directory fs p file_found_body ;;
  match r with
  | Some evs =>
      s <- get_stopped ;;
      ret (evs ++ [ScanFinished (negb s)])
  | None =>
      ret [ScanErrorSignal; ScanFinished false]           (* except *)
  end.

(* ===================================================================== *)
(** ** services/file_scanner.py: backup_directories;
       workers/backup_worker.py *)
(* ===================================================================== *)

(** What a backup does to the outside, in order: changes of the
    destination and signals of [BackupWorker].  Nothing in
    [backup_directories] or in [shutil.copytree] removes anything from the
    destination, so there is no removal here. *)
Inductive effect :=
| MakeDirs (p : string)                   (* os.makedirs(dst) *)
| MakeSymlink (p : string)                (* os.symlink(linkto, dst) *)
| OpenWrite (p : string)                  (* open(dst, 'wb') *)
| WriteChunk (p : string) (n : Z)         (* fdst.write(buf) *)
| CopyStat (p : string)                   (* shutil.copystat(src, dst) *)
| BackupProgress (file : string) (current total : nat) (copied : Z)
| BackupFinished (success : bool)
| BackupErrorSignal.

(** The lengths of the buffers that [fsrc.read(8192)] returns for a file of
    [sz] bytes, the final empty one excluded. *)
Definition chunks (sz : Z) : list Z :=
  repeat 8192 (Z.to_nat (sz / 8192)) ++
  (if sz mod 8192 =? 0 then [] else [sz mod 8192]).

(** The [while True] loop of [_copy_with_progress]; [false] when it leaves
    by [raise Exception("Operation cancelled")]. *)
Fixpoint chunk_loop (src dst : string) (current total : nat)
    (bufs : list Z) (copied : Z) : M (bool * list effect) :=
  s <- get_stopped ;;
  if s then ret (false, [])
  else match bufs with
       | [] => ret (true, [])                             (* not buf: break *)
       | b :: rest =>
           r <- chunk_loop src dst current total rest (copied + b) ;;
           ret (fst r,
                WriteChunk dst b ::
                BackupProgress src current total (copied + b) :: snd r)
       end.

Inductive copy_result :=
| CopyOk
| CopyOSError        (* OSError, or shutil.Error from a subdirectory *)
| CopyException.     (* any other exception *)

(** [_copy_with_progress], called on regular files only. *)
Definition _copy_with_progress (src dst : string) (f : node)
    (current total : nat) : M (copy_result * list effect) :=
  match getsize f with
  | None => ret (CopyOSError, [])
  | Some sz =>
      r <- chunk_loop src dst current total (chunks sz) 0 ;;
      if fst r
      then ret (CopyOk, OpenWrite dst :: snd r ++ [CopyStat dst])
      else ret (CopyException, OpenWrite dst :: snd r)
  end.

Section Backup.

(** The paths present in the destination before the backup.  The sources
    of a batch are rows of one listing, so no two have the same base
    name, and what the batch itself creates does not collide. *)
Variable dst_exists : string -> bool.

(** [shutil.copytree(src, dst, symlinks=True, copy_function=...)] on the
    directory [n].  [src] itself is listed by [os.scandir(src)], through a
    symbolic link if it is one; [symlinks=True] concerns the entries of
    the listings, which are recreated as links.  [OSError] and
    [shutil.Error] of an entry are collected and raised together at the
    end; any other exception leaves at once. *)
Fixpoint copytree (src dst : string) (n : node) (current total : nat)
  : M (copy_result * list effect) :=
  match n with
  | Dir true es | Symlink _ (ToDir true es) =>
      if dst_exists dst then ret (CopyOSError, [])      (* makedirs *)
      else
        r <- (fix entries (l : list (string * node)) (errors : bool)
                : M (copy_result * list effect) :=
                match l with
                | [] =>
                    ret (if errors then CopyOSError else CopyOk,
                         [CopyStat dst])
                | (nm, c) :: l' =>
                    r1 <- match c with
                          | Symlink _ _ =>
                              ret (CopyOk, [MakeSymlink (join dst nm)])
                          | Dir _ _ =>
                              copytree (join src nm) (join dst nm) c
                                       current total
                          | File _ _ _ =>
                              _copy_with_progress (join src nm) (join dst nm)
                                                 c current total
                          end ;;
                    match fst r1 with
                    | CopyException => ret (CopyException, snd r1)
                    | res =>
                        r2 <- entries l'
                                (match res with
                                 | CopyOk => errors | _ => true end) ;;
                        ret (fst r2, snd r1 ++ snd r2)
                    end
                end) es false ;;
        ret (fst r, MakeDirs dst :: snd r)
  | _ => ret (CopyOSError, [])                          (* os.scandir *)
  end.

(** [os.path.basename] *)
Fixpoint basename_from (s acc : string) : string :=
  match s with
  | EmptyString => acc
  | String c r =>
      if Ascii.eqb c "/" then basename_from r EmptyString
      else basename_from r (acc ++ String c EmptyString)%string
  end.

Definition basename (p : string) : string := basename_from p EmptyString.

(** The [try] block inside the loop of [backup_directories]. *)
Definition copy_source (fs : filesystem) (src_path dest_path : string)
    (index total : nat) : M (copy_result * list effect) :=
  let target_path := join dest_path (basename src_path) in
  if embedded_null src_path then ret (CopyException, [])
  else match fs src_path with
       | Some n => copytree src_path target_path n index total
       | None => ret (CopyOSError, [])
       end.

(** [for index, src_path in enumerate(src_paths, 1): ...] and the final
    [return not self.stopped]. *)
Fixpoint backup_loop (fs : filesystem) (src_paths : list string)
    (dest_path : string) (index total : nat) : M (bool * list effect) :=
  match src_paths with
  | [] => s <- get_stopped ;; ret (negb s, [])
  | src_path :: rest =>
      s <- get_stopped ;;
      if s then ret (false, [])
      else
        r <- copy_source fs src_path dest_path index total ;;
        match fst r with
        | CopyOk =>
            r' <- backup_loop fs rest dest_path (S index) total ;;
            ret (fst r', snd r ++ snd r')
        | _ => ret (false, snd r)                       (* except *)
        end
  end.

Definition backup_directories (fs : filesystem) (src_paths : list string)
    (dest_path : string) : M (bool * list effect) :=
  clear_stopped ;;;
  backup_loop fs src_paths dest_path 1 (List.length src_paths).

(** [BackupWorker.run]; [backup_directories] catches every exception. *)
Definition BackupWorker_run (fs : filesystem) (src_paths : list string)
    (dest_path : string) : M (list effect) :=
  r <- backup_directories fs src_paths dest_path ;;
  ret (snd r ++ [BackupFinished (fst r)]).

End Backup.

(* ===================================================================== *)
(** ** views/main_window.py: _start_worker *)
(* ===================================================================== *)

(** The three kinds of [QThread] the window creates. *)
Inductive Worker :=
| ScanWorker (p : string)
| CalculateWorker (items : list FileItem)
| BackupWorker (src_paths : list string) (dest_path : string).

Inductive Signal :=
| OfScan (e : ScanEvent)
| OfCalc (e : CalcEvent)
| OfBackup (e : effect).

Section Window.

Variable fs : filesystem.
Variable dst_exists : string -> bool.

(** [run()] of a worker, from its first statement to its last. *)
Definition Worker_run (w : Worker) : M (list Signal) :=
  match w with
  | ScanWorker p =>
      evs <- ScanWorker_run fs p ;; ret (map OfScan evs)
  | CalculateWorker items =>
      r <- CalculateWorker_run fs items ;; ret (map OfCalc (snd r))
  | BackupWorker src_paths dest_path =>
      evs <- BackupWorker_run dst_exists fs src_paths dest_path ;;
      ret (map OfBackup evs)
  end.

(** [self._current_worker] with the answer of its [isRunning()]. *)
Record MainWindow := mkWindow {
  _current_worker : option (Worker * bool)
}.

(** [QThread.quit()] asks the event loop of the thread to exit.  The
    workers override [run()] and never enter an event loop: the call has
    no effect on them, and it does not touch the scanner. *)
Definition QThread_quit (w : Worker) : M unit := ret tt.

(** [QThread.wait()] blocks the caller until [run()] has returned; the
    signals of the worker are those of its whole [run()]. *)
Definition QThread_wait (w : Worker) : M (list Signal) := Worker_run w.

(** [_start_worker(worker)]: the signals of the previous worker, and the
    window with the new worker started.  Unlike [stop_scan], it does not
    call [self.scanner.stop()]. *)
Definition _start_worker (mw : MainWindow) (worker : Worker)
  : M (list Signal * MainWindow) :=
  evs <- match _current_worker mw with
         | Some (cur, true) =>
             QThread_quit cur ;;; QThread_wait cur
         | _ => ret []
         end ;;
  ret (evs, {| _current_worker := Some (worker, true) |}).

(** A worker is submitted while another one runs: every signal emitted
    from then on, in emission order. *)
Definition submit_while_running (a b : Worker) : M (list Signal) :=
  r <- _start_worker {| _current_worker := Some (a, true) |} b ;;
  evs <- Worker_run b ;;
  ret (fst r ++ evs).

End Window.

(* ===================================================================== *)
(** ** utils/config_manager.py *)
(* ===================================================================== *)

(** The values of the configuration as far as [add_recent_directory] tells
    them apart: a string, a list, or anything else that [json.load] can
    give (null, number, boolean, object). *)
Inductive value :=
| VStr (s : string)
| VList (l : list value)
| VOther.

(** [self._config], a [dict]: keys in insertion order, each once. *)
Definition config : Type := list (string * value).

Fixpoint lookup (key : string) (c : config) : option value :=
  match c with
  | [] => None
  | (k, v) :: rest => if String.eqb k key then Some v else lookup key rest
  end.

(** [self._config.get(key, default)] *)
Definition get_setting (key : string) (default : value) (c : config) : value :=
  match lookup key c with Some v => v | None => default end.

(** [self._config[key] = value]: a key that is present keeps its place. *)
Fixpoint set_setting (key : string) (v : value) (c : config) : config :=
  match c with
  | [] => [(key, v)]
  | (k, w) :: rest =>
      if String.eqb k key then (k, v) :: rest
      else (k, w) :: set_setting key v rest
  end.

(** The manager: the dictionary in memory and what the configuration file
    holds ([None]: no file). *)
Record ConfigManager := mkConfig {
  _config : config;
  config_file : option config
}.

(** [save_config()]; [writable = false] when opening the file fails, which
    is logged and changes nothing. *)
Definition save_config (writable : bool) (m : ConfigManager) : ConfigManager :=
  if writable
  then {| _config := _config m; config_file := Some (_config m) |}
  else m.

(** [path == v] for an element [v] of the list. *)
Definition is_path (p : string) (v : value) : bool :=
  match v with VStr s => String.eqb s p | _ => false end.

(** [list.remove(path)]: the first element equal to [path] goes. *)
Fixpoint remove_first (p : string) (l : list value) : list value :=
  match l with
  | [] => []
  | v :: rest => if is_path p v then rest else v :: remove_first p rest
  end.

(** [add_recent_directory(path)].  When the stored value is not a list,
    one of [in], [remove] and [insert] raises; the exception is logged and
    nothing is changed or saved. *)
Definition add_recent_directory (p : string) (writable : bool)
    (m : ConfigManager) : ConfigManager :=
  match get_setting "recent_directories" (VList []) (_config m) with
  | VList recent_dirs =>
      let recent_dirs :=
        if existsb (is_path p) recent_dirs
        then remove_first p recent_dirs else recent_dirs in
      let recent_dirs := VStr p :: recent_dirs in         (* insert(0, path) *)
      let recent_dirs := firstn 10 recent_dirs in
      let c := set_setting "recent_directories" (VList recent_dirs)
                 (_config m) in
      let c := set_setting "last_directory" (VStr p) c in
      save_config writable {| _config := c; config_file := config_file m |}
  | _ => m
  end.

(** The list of recent directories as the menu of the window reads it. *)
Definition recent_directories (m : ConfigManager) : value :=
  get_setting "recent_directories" (VList []) (_config m).

(* ===================================================================== *)
(** ** utils/error_handler.py *)
(* ===================================================================== *)

(** [last_error_time] is a [datetime]; here the microseconds since some
    origin.  [timedelta.total_seconds() < 60] holds exactly when the
    difference is below 60 000 000 microseconds. *)
Record ErrorHandler := mkErrorHandler {
  error_count : Z;
  last_error_time : option Z
}.

Definition ErrorHandler_init : ErrorHandler :=
  {| error_count := 0; last_error_time := None |}.

(** [handle_error(...)] at time [now]: the value returned and the handler
    after the call.  The messages go to the logger. *)
Definition handle_error (now : Z) (h : ErrorHandler) : bool * ErrorHandler :=
  let count := error_count h + 1 in
  match last_error_time h with
  | Some t =>
      if (now - t <? 60000000) && (10 <? count)
      then (false, {| error_count := count; last_error_time := Some t |})
      else (true, {| error_count := count; last_error_time := Some now |})
  | None => (true, {| error_count := count; last_error_time := Some now |})
  end.

(** [reset_error_count()] *)
Definition reset_error_count (h : ErrorHandler) : ErrorHandler :=
  {| error_count := 0; last_error_time := None |}.

(** [get_error_status()] *)
Definition get_error_status (h : ErrorHandler) : Z * option Z :=
  (error_count h, last_error_time h).

(** What [show_error] puts on the screen: the error box with its title,
    its text and, when [details] is given and not empty, its detailed text;
    or the warning that errors come too often. *)
Inductive dialog :=
| ErrorBox (title message : string) (detailed : option string)
| TooFrequentWarning.

(** [if details:] *)
Definition truthy (details : option string) : option string :=
  match details with
  | Some EmptyString => None
  | d => d
  end.

(** [show_error(title, message, details)] at time [now], up to the dialog
    it opens. *)
Definition show_error (now : Z) (title message : string)
    (details : option string) (h : ErrorHandler) : dialog * ErrorHandler :=
  let '(ok, h') := handle_error now h in
  if ok then (ErrorBox title message (truthy details), h')
  else (TooFrequentWarning, h').

(** Errors shown one after the other, at the given times. *)
Fixpoint show_errors (calls : list (Z * (string * string * option string)))
    (h : ErrorHandler) : list dialog * ErrorHandler :=
  match calls with
  | [] => ([], h)
  | (now, (title, message, details)) :: rest =>
      let '(d, h1) := show_error now title message details h in
      let '(ds, h2) := show_errors rest h1 in
      (d :: ds, h2)
  end.

(* ===================================================================== *)
(** ** models/file_item.py: to_dict, from_dict *)
(* ===================================================================== *)

(** The Python values that the attributes of a [FileItem] take. *)
Inductive pyvalue :=
| PyNone
| PyBool (b : bool)
| PyInt (z : Z)
| PyStr (s : string).

(** The text of a status. *)
Definition status_text (s : Status) : string :=
  match s with
  | NotComputed => NOT_COMPUTED_TEXT
  | Computed => "已计算"
  | Cancelled => "已取消"
  | CalcFailed => "计算错误"
  end.

Definition py_optional_int (o : option Z) : pyvalue :=
  match o with Some z => PyInt z | None => PyNone end.

(** A [dict] with string keys, in insertion order. *)
Definition pydict : Type := list (string * pyvalue).

Fixpoint pyget (key : string) (d : pydict) : option pyvalue :=
  match d with
  | [] => None
  | (k, v) :: rest => if String.eqb k key then Some v else pyget key rest
  end.

(** [to_dict()] *)
Definition to_dict (it : FileItem) : pydict :=
  [("name", PyStr (name it));
   ("path", PyStr (path it));
   ("is_directory", PyBool (is_directory it));
   ("size", py_optional_int (size it));
   ("file_count", py_optional_int (file_count it));
   ("status", PyStr (status_text (status it)));
   ("checked", PyBool (checked it))].

(** An instance as the constructor builds it from keyword arguments: the
    dataclass checks no type, each attribute holds the value that was
    passed. *)
Record RawFileItem := mkRaw {
  raw_name : pyvalue;
  raw_path : pyvalue;
  raw_is_directory : pyvalue;
  raw_size : pyvalue;
  raw_file_count : pyvalue;
  raw_status : pyvalue;
  raw_checked : pyvalue
}.

Definition field_names : list string :=
  ["name"; "path"; "is_directory"; "size"; "file_count"; "status"; "checked"].

Definition with_default (default : pyvalue) (o : option pyvalue) : pyvalue :=
  match o with Some v => v | None => default end.

(** [from_dict(data)], the constructor called with the entries of [data]
    as keyword arguments; [None] when the call raises [TypeError]: a key
    that is no field, or [name] or [path] missing. *)
Definition from_dict (data : pydict) : option RawFileItem :=
  if forallb (fun kv => existsb (String.eqb (fst kv)) field_names) data
  then match pyget "name" data, pyget "path" data with
       | Some n, Some p =>
           Some {| raw_name := n;
                   raw_path := p;
                   raw_is_directory :=
                     with_default (PyBool true) (pyget "is_directory" data);
                   raw_size := with_default PyNone (pyget "size" data);
                   raw_file_count :=
                     with_default (PyInt 0) (pyget "file_count" data);
                   raw_status :=
                     with_default (PyStr NOT_COMPUTED_TEXT)
                                  (pyget "status" data);
                   raw_checked :=
                     with_default (PyBool false) (pyget "checked" data) |}
       | _, _ => None
       end
  else None.

(** ** Reading an instance back as an entry of the declared types *)

Definition status_of_text (s : string) : option Status :=
  if String.eqb s (status_text NotComputed) then Some NotComputed
  else if String.eqb s (status_text Computed) then Some Computed
  else if String.eqb s (status_text Cancelled) then Some Cancelled
  else if String.eqb s (status_text CalcFailed) then Some CalcFailed
  else None.

Definition optional_int_of (v : pyvalue) : option (option Z) :=
  match v with
  | PyNone => Some None
  | PyInt z => Some (Some z)
  | _ => None
  end.

(** The entry that an instance is, when each attribute holds a value of
    the type the dataclass declares for it and the status is one of the
    four texts. *)
Definition typed (r : RawFileItem) : option FileItem :=
  match raw_name r, raw_path r, raw_is_directory r,
        optional_int_of (raw_size r), optional_int_of (raw_file_count r),
        raw_status r, raw_checked r with
  | PyStr n, PyStr p, PyBool d, Some sz, Some fc, PyStr st, PyBool c =>
      match status_of_text st with
      | Some s =>
          Some {| name := n; path := p; is_directory := d; size := sz;
                  file_count := fc; status := s; checked := c |}
      | None => None
      end
  | _, _, _, _, _, _, _ => None
  end.

(* ===================================================================== *)
(** ** viewmodels/main_viewmodel.py: FileTableModel *)
(* ===================================================================== *)

(** [self._data] *)
Definition table : Type := list FileItem.

(** [add_item(item)] *)
Definition add_item (item : FileItem) (d : table) : table := d ++ [item].

(** [clear()] *)
Definition clear (d : table) : table := [].

(** [rowCount()] *)
Definition rowCount (d : table) : nat := List.length d.

(** [get_checked_items()] *)
Definition get_checked_items (d : table) : list FileItem :=
  filter checked d.

(** [x or 0] for an optional integer. *)
Definition or_zero (o : option Z) : Z :=
  match o with Some z => z | None => 0 end.

(** [get_total_size()]: the sum over the items whose size is set, and its
    text, made by the same loop and format as [format_size]. *)
Definition get_total_size (d : table) : Z * string :=
  let total_size :=
    fold_right (fun it a => match size it with
                            | Some _ => or_zero (size it) + a
                            | None => a
                            end) 0 d in
  (total_size, format_size_of (Some total_size)).

(** [get_total_files()] *)
Definition get_total_files (d : table) : Z :=
  fold_right (fun it a => match file_count it with
                          | Some _ => or_zero (file_count it) + a
                          | None => a
                          end) 0 d.

(** [str(n)] for an integer. *)
Definition py_str (z : Z) : string :=
  if z <? 0 then ("-" ++ digits (- z))%string else digits z.

(** [data(index, Qt.DisplayRole)] for a valid index, by column. *)
Definition display (col : nat) (item : FileItem) : option string :=
  match col with
  | 1%nat => Some (name item)
  | 2%nat => Some (format_size item)
  | 3%nat => Some (match file_count item with
                   | Some z => py_str z
                   | None => NOT_COMPUTED_TEXT
                   end)
  | 4%nat => Some (status_text (status item))
  | _ => None
  end.

(** The table once the signals of a scan have been delivered: the window
    clears the table before it starts the worker, and [file_found] is
    connected to [add_item]. *)
Definition table_after_scan (evs : list ScanEvent) (d : table) : table :=
  fold_left (fun d e => match e with FileFound it => add_item it d | _ => d end)
            evs (clear d).

(** [Qt.CheckState] *)
Inductive CheckState := Unchecked | PartiallyChecked | Checked.

Definition set_checked (v : bool) (it : FileItem) : FileItem :=
  {| name := name it; path := path it; is_directory := is_directory it;
     size := size it; file_count := file_count it; status := status it;
     checked := v |}.

(** [_on_select_all_changed(state)], on the data of the table. *)
Definition _on_select_all_changed (state : CheckState) (d : table) : table :=
  map (set_checked (match state with Checked => true | _ => false end)) d.

(** [int(current * 100 / total)] in [_on_calculate_progress], for
    [total > 0]: the quotient of two integers is rounded to a float and
    truncated, which for these magnitudes is the integer quotient. *)
Definition percent (current total : nat) : Z :=
  (Z.of_nat current * 100) / Z.of_nat total.

(* ===================================================================== *)
(** ** views/main_window.py: calculate_selected, _format_speed *)
(* ===================================================================== *)

(** [calculate_selected()] at time [now]: with no checked row it shows an
    error and returns; otherwise it hands a [CalculateWorker] on the
    checked rows to [_start_worker].  The result holds the dialog shown,
    if any, the error handler, the signals of the worker that was running
    and the window. *)
Definition calculate_selected (fs : filesystem) (dst_exists : string -> bool)
    (now : Z) (d : table) (h : ErrorHandler) (mw : MainWindow)
  : M (option dialog * ErrorHandler * (list Signal * MainWindow)) :=
  match get_checked_items d with
  | [] =>
      let '(dlg, h') :=
        show_error now "计算错误" "请先选择要计算的文件夹" None h in
      ret (Some dlg, h', ([], mw))
  | items =>
      r <- _start_worker fs dst_exists mw (CalculateWorker items) ;;
      ret (None, h, r)
  end.

Definition speed_units : list string := ["B/s"; "KB/s"; "MB/s"; "GB/s"].

(** The [while speed >= 1024 and unit_index < len(units) - 1] loop of
    [_format_speed].  [speed] is the exact value of the float: dividing a
    float by 1024 is exact. *)
Fixpoint speed_loop (fuel : nat) (speed : Q) (unit_index : nat) : Q * nat :=
  match fuel with
  | O => (speed, unit_index)
  | S fuel' =>
      if Qle_bool 1024 speed
         && (unit_index <? List.length speed_units - 1)%nat
      then speed_loop fuel' (speed / 1024)%Q (S unit_index)
      else (speed, unit_index)
  end.

(** ["{:.1f}"] on a non-negative value. *)
Definition fmt_1f (q : Q) : string :=
  let t := round_half_even (q * 10)%Q in
  (digits (t / 10) ++ "." ++ digits (t mod 10))%string.

(** [_format_speed(bytes_per_second)], the same in the window and in the
    backup dialog. *)
Definition _format_speed (bytes_per_second : Q) : string :=
  let '(v, unit_index) :=
    speed_loop (List.length speed_units - 1) bytes_per_second 0 in
  (fmt_1f v ++ " " ++ nth unit_index speed_units EmptyString)%string.

(* ===================================================================== *)
(** ** Quantities the properties are stated with *)
(* ===================================================================== *)

(** The scanner when no stop has been requested and none is coming. *)
Definition idle : FileScanner := {| stopped := false; stop_in := None |}.

(** The scanner when [stop()] lands after [k] more reads of the flag. *)
Definition stop_after (k : nat) : FileScanner :=
  {| stopped := false; stop_in := Some k |}.

(** What an entry adds to the size and to the count when it is asked for
    its size. *)
Definition weight (n : node) : Z :=
  match getsize n with Some sz => sz | None => 0 end.

Definition counted (n : node) : Z :=
  match getsize n with Some _ => 1 | None => 0 end.

Definition total (f : node -> Z) (l : list node) : Z :=
  fold_right (fun n a => f n + a) 0 l.

(** The entries of a tree that the walk hands over as files: every
    non-directory entry of every directory that is reached.  The top is
    reached, also through a symbolic link; below it a directory is reached
    through listable directories that are not symbolic links. *)
Fixpoint listed (n : node) : list node :=
  match n with
  | Dir true es | Symlink _ (ToDir true es) =>
      (fix sub (l : list (string * node)) : list node :=
         match l with
         | [] => []
         | (_, c) :: l' =>
             (if is_dir c then (if islink c then [] else listed c)
              else [c]) ++ sub l'
         end) es
  | _ => []
  end.

(** The regular files of a tree, one [(inode, size)] per name. *)
Fixpoint regular_files (n : node) : list (nat * Z) :=
  match n with
  | File ino sz _ => [(ino, sz)]
  | Symlink _ _ => []
  | Dir _ es =>
      (fix sub (l : list (string * node)) : list (nat * Z) :=
         match l with
         | [] => []
         | (_, c) :: l' => regular_files c ++ sub l'
         end) es
  end.

(** One [(inode, size)] per inode: a file that has several names in the
    tree is kept once. *)
Fixpoint once_per_inode (l : list (nat * Z)) : list (nat * Z) :=
  match l with
  | [] => []
  | (i, sz) :: l' =>
      (i, sz) :: filter (fun e => negb (Nat.eqb (fst e) i)) (once_per_inode l')
  end.

Definition sum_sizes (l : list (nat * Z)) : Z :=
  fold_right (fun e a => snd e + a) 0 l.

(** A tree made of listable directories and of regular files whose size
    can be read, and nothing else. *)
Fixpoint plain (n : node) : bool :=
  match n with
  | File _ _ ok => ok
  | Symlink _ _ => false
  | Dir b es =>
      b && (fix sub (l : list (string * node)) : bool :=
              match l with
              | [] => true
              | (_, c) :: l' => plain c && sub l'
              end) es
  end.

(** The points at which [calculate_directory_info] reads the flag inside
    its loops, in order: [None] at the head of a directory, [Some f] at the
    head of the file [f]. *)
Definition checkpoints (ts : list triple) : list (option node) :=
  flat_map (fun t => None :: map (fun e => Some (snd e)) (snd t)) ts.

Definition passed (f : node -> Z) (l : list (option node)) : Z :=
  fold_right (fun o a => match o with Some n => f n + a | None => a end) 0 l.

(** The flag reads of an uninterrupted [ScanWorker.run] over a listing:
    one per entry in the generator, one more per yielded directory in the
    consumer. *)
Definition scan_reads (es : list (string * node)) : nat :=
  fold_right (fun e a => ((if is_dir (snd e) then 2 else 1) + a)%nat) O es.

Definition found (root : string) (es : list (string * node)) : list ScanEvent :=
  map (fun e => FileFound (new_FileItem (fst e) (join root (fst e))))
      (filter (fun e => is_dir (snd e)) es).

Definition both_set (it : FileItem) : Prop :=
  size it <> None /\ file_count it <> None.

Definition both_unset (it : FileItem) : Prop :=
  size it = None /\ file_count it = None.

Definition stopped_now : FileScanner := {| stopped := true; stop_in := None |}.

(** The running [(total_size, file_count)] after the files of [l]. *)
Definition add_passed (acc : Z * Z) (l : list (option node)) : Z * Z :=
  (fst acc + passed weight l, snd acc + passed counted l).

(** A tree without its symbolic links.  At the top, a link to a directory
    is replaced by that directory.  Among the entries of the directories,
    a link to a file becomes a regular file of the size of its target; a
    link to a directory is left out together with everything behind it,
    and so is a dangling link.  The own sizes of the links do not occur in
    the result. *)
Fixpoint follow_links (n : node) : node :=
  match n with
  | Dir b es | Symlink _ (ToDir b es) =>
      Dir b ((fix sub (l : list (string * node)) : list (string * node) :=
                match l with
                | [] => []
                | (nm, c) :: l' =>
                    match c with
                    | Symlink _ (ToFile sz) => (nm, File 0 sz true) :: sub l'
                    | Symlink _ _ => sub l'
                    | _ => (nm, follow_links c) :: sub l'
                    end
                end) es)
  | _ => n
  end.

(** ** Sample inputs *)

(** A file system with the tree [t] at [p] and nothing elsewhere. *)
Definition fs_at (p : string) (t : node) : filesystem :=
  fun q => if String.eqb q p then Some t else None.

(** A directory with one file under two names (hard link) and a symbolic
    link to it. *)
Definition tree_two_names_one_link : node :=
  Dir true [("a", File 1 5 true); ("b", File 1 5 true);
            ("l", Symlink 1 (ToFile 5))].

Definition tree_two_files : node :=
  Dir true [("a", File 1 5 true); ("b", File 2 7 true)].

Definition tree_one_link : node :=
  Dir true [("link", Symlink 4 (ToFile 100))].

Definition tree_nested : node :=
  Dir true [("a", File 1 5 true);
            ("sub", Dir true [("b", File 2 7 true); ("c", File 3 11 true)]);
            ("d", File 4 13 true)].

Definition tree_with_links : node :=
  Dir true [("a", File 1 5 true);
            ("sub", Dir true [("l", Symlink 4 (ToFile 100));
                              ("x", Symlink 3 Dangling)]);
            ("d", Symlink 2 (ToDir true [("big", File 9 1000 true)]))].

(** [tree_with_links] at [/r], with the link [d] of that directory found
    at its own path as well. *)
Definition fs_with_links : filesystem :=
  fun q =>
    if String.eqb q "/r" then Some tree_with_links
    else if String.eqb q "/r/d"
         then Some (Symlink 2 (ToDir true [("big", File 9 1000 true)]))
    else None.

(** A path that [os.scandir] refuses. *)
Definition nul_path : string := String zero "r".

(** An item that an earlier run has computed. *)
Definition computed_item (p : string) : FileItem :=
  {| name := "r"; path := p; is_directory := true;
     size := Some 12; file_count := Some 2; status := Computed;
     checked := true |}.

(** The [progress] signals of a batch whose items ended as [items]. *)
Fixpoint progress_from (i total : nat) (items : list FileItem)
  : list CalcEvent :=
  match items with
  | [] => []
  | it :: rest => CalcProgress it i total :: progress_from (S i) total rest
  end.

Definition tree_with_subdirs : node :=
  Dir true [("d1", Dir true [("a", File 1 5 true)]);
            ("f", File 2 7 true);
            ("d2", Dir true [])].

(** The sources [srcs], taken at position [i] in scanner state [s], are
    each copied without error and without a stop being seen: [E] is what
    was done to the destination and emitted, [s'] is the state after. *)
Inductive sources_copied (dst_exists : string -> bool) (fs : filesystem)
    (dest : string) (total : nat)
  : list string -> nat -> FileScanner -> list effect -> FileScanner -> Prop :=
| copied_nil i s :
    sources_copied dst_exists fs dest total [] i s [] s
| copied_cons src rest i s s1 s2 s3 e1 e2 :
    get_stopped s = (false, s1) ->
    copy_source dst_exists fs src dest i total s1 = (CopyOk, e1, s2) ->
    sources_copied dst_exists fs dest total rest (S i) s2 e2 s3 ->
    sources_copied dst_exists fs dest total (src :: rest) i s (e1 ++ e2) s3.

(** Three source directories; the second holds a file that cannot be
    read. *)
Definition fs_backup : filesystem :=
  fun q =>
    if String.eqb q "/r/ok" then Some (Dir true [("a", File 1 10 true)])
    else if String.eqb q "/r/bad"
         then Some (Dir true [("x", File 2 3 true); ("y", File 3 5 false)])
    else if String.eqb q "/r/later" then Some (Dir true [("z", File 4 1 true)])
    else None.

Definition empty_destination : string -> bool := fun _ => false.

(** Two values of an entry that differ at most in what a computation
    writes. *)
Definition same_identity (a b : FileItem) : Prop :=
  name a = name b /\ path a = path b /\
  is_directory a = is_directory b /\ checked a = checked b.

(** ** Quantities read off what a backup did *)

Definition sum_list (l : list Z) : Z := fold_right Z.add 0 l.

(** The bytes written to the destination, all files together. *)
Definition written (effs : list effect) : Z :=
  fold_right (fun e a => match e with WriteChunk _ n => n + a | _ => a end)
             0 effs.



(** The byte counts carried by the progress signals, in order. *)
Definition progress_values (effs : list effect) : list Z :=
  flat_map (fun e => match e with BackupProgress _ _ _ c => [c] | _ => [] end)
           effs.

(** The sums of the first one, two, ... buffers, on top of [copied]. *)
Fixpoint running (copied : Z) (bufs : list Z) : list Z :=
  match bufs with
  | [] => []
  | b :: rest => (copied + b) :: running (copied + b) rest
  end.

(** What the copy loop does for the buffers [bufs] when it is not
    stopped. *)
Fixpoint chunk_effects (src dst : string) (current total : nat)
    (bufs : list Z) (copied : Z) : list effect :=
  match bufs with
  | [] => []
  | b :: rest =>
      WriteChunk dst b :: BackupProgress src current total (copied + b)
      :: chunk_effects src dst current total rest (copied + b)
  end.

(** An effect that, if it is a write, writes a buffer of at least one and
    at most 8192 bytes to the file [dst]. *)
Definition buffer_to (dst : string) (e : effect) : Prop :=
  match e with
  | WriteChunk p n => p = dst /\ 0 < n <= 8192
  | _ => True
  end.

(** The number of writes. *)
Definition writes (effs : list effect) : Z :=
  fold_right (fun e a => match e with WriteChunk _ _ => 1 + a | _ => a end)
             0 effs.



(** A name as a directory listing gives it: without separator. *)
Fixpoint no_slash (s : string) : bool :=
  match s with
  | EmptyString => true
  | String c r => negb (Ascii.eqb c "/") && no_slash r
  end.

(* ===================================================================== *)
(** * Properties *)
(* ===================================================================== *)

(** ** format_size *)

Lemma round_half_even_comp (p q : Q) :
  (p == q)%Q -> round_half_even p = round_half_even q.
Proof.
  intros E. unfold round_half_even.
  rewrite (Qfloor_comp _ _ E).
  assert (E' : (p - inject_Z (Qfloor q) == q - inject_Z (Qfloor q))%Q)
    by (rewrite E; reflexivity).
  rewrite (Qcompare_comp _ _ E' (1 # 2)%Q (1 # 2)%Q (Qeq_refl _)).
  reflexivity.
Qed.

Lemma round_half_even_close (q : Q) :
  (- (1 # 2) <= inject_Z (round_half_even q) - q <= 1 # 2)%Q.
Proof.
  unfold round_half_even.
  pose proof (Qfloor_le q) as Hlo.
  pose proof (Qlt_floor q) as Hhi.
  rewrite inject_Z_plus in Hhi. change (inject_Z 1) with 1%Q in Hhi.
  destruct (Qcompare (q - inject_Z (Qfloor q)) (1 # 2)) eqn:C.
  - apply Qeq_alt in C.
    destruct (Z.even (Qfloor q));
      [|rewrite inject_Z_plus; change (inject_Z 1) with 1%Q]; lra.
  - apply Qlt_alt in C. lra.
  - apply Qgt_alt in C.
    rewrite inject_Z_plus; change (inject_Z 1) with 1%Q. lra.
Qed.

Lemma pow1024_pos (j : nat) : 0 < 1024 ^ Z.of_nat j.
Proof. apply Z.pow_pos_nonneg; lia. Qed.

Lemma inject_pow1024_succ (j : nat) :
  (inject_Z (1024 ^ Z.of_nat (S j)) == 1024 * inject_Z (1024 ^ Z.of_nat j))%Q.
Proof.
  rewrite Nat2Z.inj_succ, Z.pow_succ_r by lia.
  rewrite inject_Z_mult. reflexivity.
Qed.

Lemma inject_pow1024_nonzero (j : nat) :
  ~ (inject_Z (1024 ^ Z.of_nat j) == 0)%Q.
Proof.
  intros E. change 0%Q with (inject_Z 0) in E.
  apply (proj1 (inject_Z_injective _ _)) in E. pose proof (pow1024_pos j) as H.
  rewrite E in H. discriminate H.
Qed.

(** The loop stops after [j] divisions with the value [q / 1024^j], which
    is at least 1 when [j > 0] and below 1024 unless the table is
    exhausted. *)
Lemma scale_loop_spec (fuel : nat) :
  forall (q : Q) (k : nat),
    (fuel + k = 4)%nat ->
    exists (j : nat) (q' : Q),
      scale_loop fuel q k = (q', (k + j)%nat) /\
      (j <= fuel)%nat /\
      (q' == q / inject_Z (1024 ^ Z.of_nat j))%Q /\
      (j = 0%nat \/ (1 <= q')%Q) /\
      (j = fuel \/ (q' < 1024)%Q).
Proof.
  induction fuel as [|fuel IH]; intros q k Hk.
  - exists 0%nat, q. cbn [scale_loop]. rewrite Nat.add_0_r.
    repeat split; try (left; reflexivity); try lia.
    change (inject_Z (1024 ^ Z.of_nat 0)) with 1%Q. field.
  - cbn [scale_loop]. cbn [units List.length].
    replace (k <? 5 - 1)%nat with true
      by (symmetry; apply Nat.ltb_lt; lia).
    rewrite andb_true_r.
    destruct (Qle_bool 1024 q) eqn:B.
    + apply Qle_bool_iff in B.
      destruct (IH (q / 1024)%Q (S k)) as (j & q' & E & Hj & Hq & Hlo & Hhi);
        [lia|].
      exists (S j), q'. rewrite E.
      replace (S k + j)%nat with (k + S j)%nat by lia.
      assert (Hq' : (q' == q / inject_Z (1024 ^ Z.of_nat (S j)))%Q).
      { rewrite Hq, inject_pow1024_succ.
        pose proof (inject_pow1024_nonzero j). field. assumption. }
      repeat split; try lia; try assumption.
      * right. destruct Hlo as [->|Hlo]; [|exact Hlo].
        rewrite Hq. change (inject_Z (1024 ^ Z.of_nat 0)) with 1%Q.
        assert (q / 1024 / 1 == q / 1024)%Q as -> by field.
        apply Qle_shift_div_l; [reflexivity|]. lra.
      * destruct Hhi as [->|Hhi]; [left; reflexivity|right; exact Hhi].
    + exists 0%nat, q. rewrite Nat.add_0_r.
      repeat split; try (left; reflexivity); try lia.
      * change (inject_Z (1024 ^ Z.of_nat 0)) with 1%Q. field.
      * right. apply Qnot_le_lt. intros H. apply Qle_bool_iff in H. congruence.
Qed.

Lemma scaled_bounds (n : Z) (j : nat) (q' : Q) :
  (q' == inject_Z n / inject_Z (1024 ^ Z.of_nat j))%Q ->
  ((1 <= q')%Q -> 1024 ^ Z.of_nat j <= n) /\
  ((q' < 1024)%Q -> n < 1024 ^ Z.of_nat (S j)).
Proof.
  intros Hq.
  pose proof (inject_pow1024_nonzero j) as Hnz.
  assert (Hpos : (0 < inject_Z (1024 ^ Z.of_nat j))%Q).
  { change 0%Q with (inject_Z 0). rewrite <- Zlt_Qlt. apply pow1024_pos. }
  assert (Hn : (inject_Z n == q' * inject_Z (1024 ^ Z.of_nat j))%Q).
  { rewrite Hq. field. exact Hnz. }
  split; intros H.
  - rewrite Zle_Qle, Hn.
    apply (Qmult_le_compat_r _ _ (inject_Z (1024 ^ Z.of_nat j))) in H;
      [|apply Qlt_le_weak; exact Hpos].
    lra.
  - rewrite Zlt_Qlt, inject_pow1024_succ, Hn.
    apply (Qmult_lt_compat_r _ _ (inject_Z (1024 ^ Z.of_nat j))) in H;
      [|exact Hpos].
    exact H.
Qed.

(** C8.  [format_size] gives "0.00 B" for 0, "1.00 KB" for 1024, "1.50 KB"
    for 1536 and "1.00 TB" for 1024^4.  For every size in the range where
    the float arithmetic of the source is exact, the text is the value
    [n / 1024^k] rounded to two decimals ([h] hundredths, within half a
    hundredth of the value) followed by the [k]-th unit of B, KB, MB, GB,
    TB, where [k] is the largest index with [1024^k <= n], or 0 below
    1024, or 4 (TB) from 1024^5 on. *)
Theorem format_size_units :
  format_size_of (Some 0) = "0.00 B" /\
  format_size_of (Some 1024) = "1.00 KB" /\
  format_size_of (Some 1536) = "1.50 KB" /\
  format_size_of (Some (1024 ^ 4)) = "1.00 TB" /\
  forall n : Z, 0 <= n < 2 ^ 53 ->
    exists (k : nat) (h : Z),
      (k <= 4)%nat /\
      (k = 0%nat \/ 1024 ^ Z.of_nat k <= n) /\
      (k = 4%nat \/ n < 1024 ^ Z.of_nat (S k)) /\
      (Qabs (inject_Z h
             - 100 * (inject_Z n / inject_Z (1024 ^ Z.of_nat k))) <= 1 # 2)%Q /\
      format_size_of (Some n) =
        ((digits (h / 100) ++ "." ++ two_digits (h mod 100))
         ++ " " ++ nth k units EmptyString)%string.
Proof.
  repeat (split; [vm_compute; reflexivity|]).
  intros n Hn.
  destruct (scale_loop_spec 4 (inject_Z n) 0 eq_refl)
    as (j & q' & E & Hj & Hq & Hlo & Hhi).
  destruct (scaled_bounds n j q' Hq) as [Hge Hlt].
  exists j, (round_half_even (q' * 100)).
  split; [exact Hj|]. split; [|split; [|split]].
  - destruct Hlo as [->|Hlo]; [left; reflexivity|right; auto].
  - destruct Hhi as [->|Hhi]; [left; reflexivity|right; auto].
  - apply Qabs_Qle_condition.
    pose proof (round_half_even_close (q' * 100)) as Hc.
    rewrite <- Hq. lra.
  - unfold format_size_of. cbn [units List.length Nat.sub].
    rewrite E. reflexivity.
Qed.

Lemma format_size_units_witness :
  0 <= 1152 < 2 ^ 53 /\
  exists (k : nat) (h : Z),
    (k <= 4)%nat /\
    (k = 0%nat \/ 1024 ^ Z.of_nat k <= 1152) /\
    (k = 4%nat \/ 1152 < 1024 ^ Z.of_nat (S k)) /\
    (Qabs (inject_Z h
           - 100 * (inject_Z 1152 / inject_Z (1024 ^ Z.of_nat k))) <= 1 # 2)%Q /\
    format_size_of (Some 1152) =
      ((digits (h / 100) ++ "." ++ two_digits (h mod 100))
       ++ " " ++ nth k units EmptyString)%string.
Proof.
  split; [lia|].
  apply (proj2 (proj2 (proj2 (proj2 format_size_units))) 1152). lia.
Defined.

(** ** calculate_directory_info: the two loops *)

Lemma node_ind' (P : node -> Prop) :
  (forall i s b, P (File i s b)) ->
  (forall o sz, P (Symlink o (ToFile sz))) ->
  (forall o b es,
     Forall (fun e => P (snd e)) es -> P (Symlink o (ToDir b es))) ->
  (forall o, P (Symlink o Dangling)) ->
  (forall b es, Forall (fun e => P (snd e)) es -> P (Dir b es)) ->
  forall n, P n.
Proof.
  intros HF HLF HLD HLN HD. fix IH 1. intros [i s b|o [sz|b es|]|b es].
  - apply HF.
  - apply HLF.
  - apply HLD. induction es as [|[nm c] es IHes]; constructor.
    + apply IH.
    + exact IHes.
  - apply HLN.
  - apply HD. induction es as [|[nm c] es IHes]; constructor.
    + apply IH.
    + exact IHes.
Qed.

(** A link to a directory, taken as the top of a walk, of a listing or of
    a copy, behaves as the directory it points to. *)
Lemma os_walk_link top o b es :
  os_walk top (Symlink o (ToDir b es)) = os_walk top (Dir b es).
Proof. destruct b; reflexivity. Qed.

Lemma listed_link o b es :
  listed (Symlink o (ToDir b es)) = listed (Dir b es).
Proof. destruct b; reflexivity. Qed.

Lemma passed_app (f : node -> Z) (l1 l2 : list (option node)) :
  passed f (l1 ++ l2) = passed f l1 + passed f l2.
Proof.
  unfold passed.
  induction l1 as [|[n|] l1 IH]; cbn [fold_right app]; lia.
Qed.

Lemma total_app (f : node -> Z) (l1 l2 : list node) :
  total f (l1 ++ l2) = total f l1 + total f l2.
Proof.
  unfold total.
  induction l1 as [|n l1 IH]; cbn [fold_right app]; lia.
Qed.

Lemma passed_files (f : node -> Z) (files : list (string * node)) :
  passed f (map (fun e => Some (snd e)) files) = total f (map snd files).
Proof.
  unfold passed, total.
  induction files as [|[nm c] files IH]; [reflexivity|].
  cbn [map fold_right snd]. lia.
Qed.

Lemma add_passed_app (acc : Z * Z) (l1 l2 : list (option node)) :
  add_passed (add_passed acc l1) l2 = add_passed acc (l1 ++ l2).
Proof.
  unfold add_passed. cbn [fst snd]. rewrite !passed_app. f_equal; lia.
Qed.

Lemma add_passed_nil (acc : Z * Z) : add_passed acc [] = acc.
Proof.
  destruct acc as [a b]. unfold add_passed. cbn. f_equal; lia.
Qed.

Lemma checkpoints_cons (r : string) (ds : list string)
    (files : list (string * node)) (ts : list triple) :
  checkpoints ((r, ds, files) :: ts) =
  None :: map (fun e => Some (snd e)) files ++ checkpoints ts.
Proof. reflexivity. Qed.

Lemma checkpoints_app (ts1 ts2 : list triple) :
  checkpoints (ts1 ++ ts2) = checkpoints ts1 ++ checkpoints ts2.
Proof. unfold checkpoints. apply flat_map_app. Qed.

(** Once the flag is up, both loops leave at their next check. *)
Lemma files_loop_stopped files acc :
  files_loop files acc stopped_now = (acc, stopped_now).
Proof. destruct files as [|[nm c] files]; reflexivity. Qed.

Lemma walk_loop_stopped ts acc :
  walk_loop ts acc stopped_now = (acc, stopped_now).
Proof. destruct ts as [|[[r ds] files] ts]; reflexivity. Qed.

(** The inner loop when the stop lands after [k] reads. *)
Lemma files_loop_stop_after files : forall acc k,
  files_loop files acc (stop_after k) =
  if (k <? List.length files)%nat
  then (add_passed acc (firstn k (map (fun e => Some (snd e)) files)),
        stopped_now)
  else (add_passed acc (map (fun e => Some (snd e)) files),
        stop_after (k - List.length files)).
Proof.
  induction files as [|[nm c] files IH]; intros acc k.
  - cbn. rewrite add_passed_nil, Nat.sub_0_r. reflexivity.
  - destruct k as [|k].
    + cbn. rewrite add_passed_nil. reflexivity.
    + cbn [files_loop]. unfold bind at 1. cbn [get_stopped stop_after stop_in stopped].
      fold (stop_after k).
      cbn [List.length map firstn].
      change (S k <? S (List.length files))%nat
        with (k <? List.length files)%nat.
      rewrite Nat.sub_succ.
      assert (Hstep : forall l,
                 add_passed acc (Some c :: l) =
                 add_passed (match getsize c with
                             | Some sz => (fst acc + sz, snd acc + 1)
                             | None => acc
                             end) l).
      { intros l. unfold add_passed, weight, counted, passed.
        cbn [fold_right].
        destruct (getsize c); cbn [fst snd]; f_equal; lia. }
      rewrite !Hstep.
      destruct (getsize c); apply IH.
Qed.

(** The outer loop when the stop lands after [k] reads. *)
Lemma walk_loop_stop_after ts : forall acc k,
  walk_loop ts acc (stop_after k) =
  if (k <? List.length (checkpoints ts))%nat
  then (add_passed acc (firstn k (checkpoints ts)), stopped_now)
  else (add_passed acc (checkpoints ts),
        stop_after (k - List.length (checkpoints ts))).
Proof.
  induction ts as [|[[r ds] files] ts IH]; intros acc k.
  - cbn. rewrite add_passed_nil, Nat.sub_0_r. reflexivity.
  - rewrite checkpoints_cons.
    destruct k as [|k].
    + cbn. rewrite add_passed_nil. reflexivity.
    + cbn [walk_loop]. unfold bind at 1.
      cbn [get_stopped stop_after stop_in stopped]. fold (stop_after k).
      unfold bind. rewrite files_loop_stop_after.
      cbn [List.length firstn].
      change (S k <? S (List.length (map (fun e => Some (snd e)) files
                                      ++ checkpoints ts)))%nat
        with (k <? List.length (map (fun e => Some (snd e)) files
                                ++ checkpoints ts))%nat.
      rewrite Nat.sub_succ, length_app, length_map.
      assert (Hnone : forall l, add_passed acc (None :: l) = add_passed acc l)
        by reflexivity.
      rewrite !Hnone.
      destruct (k <? List.length files)%nat eqn:Hk.
      * apply Nat.ltb_lt in Hk.
        rewrite walk_loop_stopped.
        replace (k <? List.length files + List.length (checkpoints ts))%nat
          with true by (symmetry; apply Nat.ltb_lt; lia).
        rewrite firstn_app, length_map.
        replace (k - List.length files)%nat with 0%nat by lia.
        cbn [firstn]. rewrite app_nil_r. reflexivity.
      * apply Nat.ltb_ge in Hk.
        rewrite IH.
        rewrite firstn_app, length_map.
        rewrite (firstn_all2 (map (fun e => Some (snd e)) files))
          by (rewrite length_map; lia).
        rewrite !add_passed_app.
        destruct (k - List.length files <? List.length (checkpoints ts))%nat
          eqn:Hk2.
        -- apply Nat.ltb_lt in Hk2.
           replace (k <? List.length files + List.length (checkpoints ts))%nat
             with true by (symmetry; apply Nat.ltb_lt; lia).
           reflexivity.
        -- apply Nat.ltb_ge in Hk2.
           replace (k <? List.length files + List.length (checkpoints ts))%nat
             with false by (symmetry; apply Nat.ltb_ge; lia).
           do 2 f_equal. lia.
Qed.

Lemma files_loop_idle files : forall acc,
  files_loop files acc idle =
  (add_passed acc (map (fun e => Some (snd e)) files), idle).
Proof.
  induction files as [|[nm c] files IH]; intros acc.
  - cbn. rewrite add_passed_nil. reflexivity.
  - cbn [files_loop]. unfold bind at 1. cbn [get_stopped idle stop_in stopped].
    fold idle. cbn [map].
    destruct (getsize c) eqn:G; rewrite IH; f_equal;
      unfold add_passed, weight, counted, passed; cbn [fold_right fst snd];
      rewrite G; f_equal; lia.
Qed.

Lemma walk_loop_idle ts : forall acc,
  walk_loop ts acc idle = (add_passed acc (checkpoints ts), idle).
Proof.
  induction ts as [|[[r ds] files] ts IH]; intros acc.
  - cbn. rewrite add_passed_nil. reflexivity.
  - rewrite checkpoints_cons. cbn [walk_loop]. unfold bind at 1.
    cbn [get_stopped idle stop_in stopped]. fold idle.
    unfold bind. rewrite files_loop_idle, IH, add_passed_app. reflexivity.
Qed.

(** The walk visits the listed entries, directory by directory. *)
Lemma walk_listed_dir (f : node -> Z) b es :
  Forall (fun e => forall top,
            passed f (checkpoints (os_walk top (snd e))) =
            total f (listed (snd e))) es ->
  forall top,
    passed f (checkpoints (os_walk top (Dir b es))) =
    total f (listed (Dir b es)).
Proof.
  intros IH top.
  destruct b; [|reflexivity].
  cbn [os_walk listed]. rewrite checkpoints_cons.
  change (passed f (None :: ?l)) with (passed f l).
  rewrite passed_app, passed_files. unfold nondirs_of.
  revert top.
  induction IH as [|[nm c] es Hc Hes IHes]; intros top; [reflexivity|].
  cbn [filter snd].
  rewrite checkpoints_app, passed_app, total_app.
  rewrite <- (IHes top). clear IHes.
  destruct c as [i s b|o tg|b es'].
  - cbn [is_dir negb andb map snd].
    unfold total, passed. cbn [fold_right checkpoints flat_map]. lia.
  - destruct tg; cbn [is_dir islink negb andb map snd];
      unfold total, passed; cbn [fold_right checkpoints flat_map]; lia.
  - cbn [is_dir islink negb andb map snd].
    cbn [snd] in Hc. rewrite Hc. unfold total, passed. lia.
Qed.

Lemma walk_listed (f : node -> Z) (t : node) :
  forall top, passed f (checkpoints (os_walk top t)) = total f (listed t).
Proof.
  induction t as [i s b|o sz|o b es IH|o|b es IH] using node_ind';
    intros top; try reflexivity.
  - rewrite os_walk_link, listed_link. apply walk_listed_dir. exact IH.
  - apply walk_listed_dir. exact IH.
Qed.

(** ** calculate_directory_info: the result *)

Lemma calculate_idle fs item ts :
  walk fs (path item) = Some ts ->
  calculate_directory_info fs item idle =
  (set_status Computed
     (set_file_count (passed counted (checkpoints ts))
        (set_size (passed weight (checkpoints ts)) item)),
   idle).
Proof.
  intros Hw. unfold calculate_directory_info, bind.
  rewrite Hw, walk_loop_idle. reflexivity.
Qed.

Lemma calculate_stop_after fs item ts k :
  walk fs (path item) = Some ts ->
  (k <= List.length (checkpoints ts))%nat ->
  calculate_directory_info fs item (stop_after k) =
  (set_status Cancelled
     (set_file_count (passed counted (firstn k (checkpoints ts)))
        (set_size (passed weight (firstn k (checkpoints ts))) item)),
   stopped_now).
Proof.
  intros Hw Hk. unfold calculate_directory_info, bind.
  rewrite Hw, walk_loop_stop_after.
  destruct (k <? List.length (checkpoints ts))%nat eqn:B.
  - reflexivity.
  - apply Nat.ltb_ge in B.
    assert (k = List.length (checkpoints ts)) as -> by lia.
    rewrite Nat.sub_diag, firstn_all. reflexivity.
Qed.

Lemma calculate_raises fs item s :
  walk fs (path item) = None ->
  calculate_directory_info fs item s = (set_status CalcFailed item, s).
Proof.
  intros Hw. unfold calculate_directory_info, bind.
  rewrite Hw. reflexivity.
Qed.

Lemma walk_found fs p t :
  embedded_null p = false -> fs p = Some t -> walk fs p = Some (os_walk p t).
Proof. intros Hn Hf. unfold walk. rewrite Hn, Hf. reflexivity. Qed.

Lemma sum_sizes_app l1 l2 :
  sum_sizes (l1 ++ l2) = sum_sizes l1 + sum_sizes l2.
Proof.
  unfold sum_sizes.
  induction l1 as [|e l1 IH]; cbn [fold_right app]; lia.
Qed.

(** On a plain tree the listed entries are the regular files. *)
Lemma plain_listed (t : node) :
  plain t = true -> is_dir t = true ->
  total weight (listed t) = sum_sizes (regular_files t) /\
  total counted (listed t) = Z.of_nat (List.length (regular_files t)).
Proof.
  induction t as [i s b|o sz|o b es IH|o|b es IH] using node_ind';
    intros Hp Hd.
  - discriminate Hd.
  - discriminate Hp.
  - discriminate Hp.
  - discriminate Hp.
  - clear Hd. cbn [plain] in Hp. apply andb_true_iff in Hp. destruct Hp as [-> Hp].
    cbn [listed regular_files].
    induction IH as [|[nm c] es Hc Hes IHes]; [split; reflexivity|].
    apply andb_true_iff in Hp. destruct Hp as [Hpc Hpes].
    destruct (IHes Hpes) as [E1 E2].
    rewrite !total_app, sum_sizes_app, length_app, Nat2Z.inj_add, E1, E2.
    cbn [snd] in Hc.
    destruct c as [i s b|o tg|b es'].
    + cbn [plain] in Hpc. subst b. cbn [is_dir regular_files].
      unfold total, weight, counted, sum_sizes. cbn. split; lia.
    + discriminate Hpc.
    + cbn [is_dir islink]. destruct (Hc Hpc eq_refl) as [-> ->].
      split; reflexivity.
Qed.

Lemma once_per_inode_nodup (l : list (nat * Z)) :
  NoDup (map fst l) -> once_per_inode l = l.
Proof.
  induction l as [|[i sz] l IH]; intros Hnd; [reflexivity|].
  cbn [map fst] in Hnd. inversion Hnd as [|? ? Hni Hnd']. subst.
  cbn [once_per_inode]. rewrite (IH Hnd'). f_equal.
  clear IH Hnd Hnd'. induction l as [|[j sz'] l IH]; [reflexivity|].
  cbn [filter fst]. cbn [map fst] in Hni.
  destruct (Nat.eqb j i) eqn:E.
  - apply Nat.eqb_eq in E. subst. exfalso. apply Hni. left. reflexivity.
  - cbn [negb]. f_equal. apply IH. intros H. apply Hni. right. exact H.
Qed.

(** C1 (amended).  Without a stop request, [calculate_directory_info] sets
    [size] to the sum, over every non-directory entry of every directory
    the walk reaches whose size can be read, of the size the query reports
    for that name, [file_count] to the number of those entries, and
    [status] to Computed.  The walk starts at what the path of the entry
    designates, through a symbolic link if the path is one; below, it
    enters the listable directories that are not symbolic links.  Each
    name is counted, and a symbolic link to a file counts with the size of
    its target.  On a directory made only of listable directories and
    readable regular files, no file having two names, these are the total
    size and the number of the regular files. *)
Theorem calculate_directory_info_sums fs item t :
  embedded_null (path item) = false ->
  fs (path item) = Some t ->
  let it' := fst (calculate_directory_info fs item idle) in
  size it' = Some (total weight (listed t)) /\
  file_count it' = Some (total counted (listed t)) /\
  status it' = Computed /\
  (is_dir t = true -> plain t = true -> NoDup (map fst (regular_files t)) ->
   total weight (listed t) = sum_sizes (once_per_inode (regular_files t)) /\
   total counted (listed t) =
     Z.of_nat (List.length (once_per_inode (regular_files t)))).
Proof.
  intros Hn Hf.
  rewrite (calculate_idle fs item _ (walk_found fs _ t Hn Hf)).
  cbn [fst size file_count status set_status set_file_count set_size].
  rewrite !walk_listed.
  repeat split; try reflexivity.
  - rewrite once_per_inode_nodup by assumption. apply plain_listed; assumption.
  - rewrite once_per_inode_nodup by assumption. apply plain_listed; assumption.
Qed.

Lemma calculate_directory_info_sums_witness :
  let it' := fst (calculate_directory_info (fs_at "/r" tree_nested)
                    (new_FileItem "r" "/r") idle) in
  size it' = Some (total weight (listed tree_nested)) /\
  file_count it' = Some (total counted (listed tree_nested)) /\
  status it' = Computed /\
  total weight (listed tree_nested) =
    sum_sizes (once_per_inode (regular_files tree_nested)) /\
  total counted (listed tree_nested) =
    Z.of_nat (List.length (once_per_inode (regular_files tree_nested))).
Proof.
  destruct (calculate_directory_info_sums (fs_at "/r" tree_nested)
              (new_FileItem "r" "/r") tree_nested eq_refl eq_refl)
    as (Hs & Hc & Hst & Hplain).
  split; [exact Hs|]. split; [exact Hc|]. split; [exact Hst|].
  apply Hplain; [reflexivity|reflexivity|].
  cbn. repeat (constructor; [cbn; intuition discriminate|]). constructor.
Defined.

(** C1, as stated, fails: a directory holding one 5-byte file under two
    names and a symbolic link to it has one regular file of 5 bytes (two
    names, 10 bytes, if names are counted); the method reports 3 files and
    15 bytes. *)
Lemma calculate_directory_info_counts_names_and_links :
  let it' := fst (calculate_directory_info
                    (fs_at "/r" tree_two_names_one_link)
                    (new_FileItem "r" "/r") idle) in
  size it' = Some 15 /\ file_count it' = Some 3 /\
  sum_sizes (once_per_inode (regular_files tree_two_names_one_link)) = 5 /\
  List.length (once_per_inode (regular_files tree_two_names_one_link)) = 1%nat /\
  sum_sizes (regular_files tree_two_names_one_link) = 10 /\
  List.length (regular_files tree_two_names_one_link) = 2%nat /\
  size it' <>
    Some (sum_sizes (once_per_inode (regular_files tree_two_names_one_link))) /\
  file_count it' <>
    Some (Z.of_nat (List.length
                      (once_per_inode
                         (regular_files tree_two_names_one_link)))).
Proof. vm_compute. repeat split; try reflexivity; discriminate. Qed.

(** C2 (amended).  When the stop request lands at any of the reads of the
    flag that [calculate_directory_info] makes (after [k] reads, [k] up to
    the number of checks in the loops), the entry ends with status
    Cancelled, and [size] and [file_count] are set to the sums over the
    files handled before the request was seen. *)
Theorem cancelled_calculation_keeps_partial_sums fs item ts k :
  walk fs (path item) = Some ts ->
  (k <= List.length (checkpoints ts))%nat ->
  let it' := fst (calculate_directory_info fs item (stop_after k)) in
  status it' = Cancelled /\
  size it' = Some (passed weight (firstn k (checkpoints ts))) /\
  file_count it' = Some (passed counted (firstn k (checkpoints ts))).
Proof.
  intros Hw Hk. rewrite (calculate_stop_after fs item ts k Hw Hk).
  repeat split; reflexivity.
Qed.

Lemma cancelled_calculation_keeps_partial_sums_witness :
  let it' := fst (calculate_directory_info (fs_at "/r" tree_nested)
                    (new_FileItem "r" "/r") (stop_after 4)) in
  status it' = Cancelled /\
  size it' =
    Some (passed weight
            (firstn 4 (checkpoints (os_walk "/r" tree_nested)))) /\
  file_count it' =
    Some (passed counted
            (firstn 4 (checkpoints (os_walk "/r" tree_nested)))).
Proof.
  apply (cancelled_calculation_keeps_partial_sums
           (fs_at "/r" tree_nested) (new_FileItem "r" "/r")
           (os_walk "/r" tree_nested) 4).
  - reflexivity.
  - vm_compute. lia.
Defined.

(** C2, as stated, fails: with two files of 5 and 7 bytes and a stop
    request that lands between them, the entry is Cancelled and carries
    the partial sums, 5 bytes and 1 file. *)
Lemma cancelled_calculation_writes_partial_sums :
  let it' := fst (calculate_directory_info (fs_at "/r" tree_two_files)
                    (new_FileItem "r" "/r") (stop_after 2)) in
  status it' = Cancelled /\ size it' = Some 5 /\ file_count it' = Some 1 /\
  ~ both_unset it'.
Proof.
  vm_compute. repeat split; try reflexivity. intros [H _]. discriminate H.
Qed.

(** ** Symbolic links in the aggregation *)

Lemma follow_links_link o b es :
  follow_links (Symlink o (ToDir b es)) = follow_links (Dir b es).
Proof. reflexivity. Qed.

Lemma listed_follow_links_dir (f : node -> Z) b es :
  (forall o sz, f (Symlink o (ToFile sz)) = f (File 0 sz true)) ->
  (forall o, f (Symlink o Dangling) = 0) ->
  Forall (fun e => total f (listed (follow_links (snd e))) =
                   total f (listed (snd e))) es ->
  total f (listed (follow_links (Dir b es))) = total f (listed (Dir b es)).
Proof.
  intros Hfile Hdangling IH.
  destruct b; [|reflexivity].
  cbn [follow_links listed].
  induction IH as [|[nm c] es Hc Hes IHes]; [reflexivity|].
  cbn [snd] in Hc.
  destruct c as [i s b|o tg|b es'].
  - cbn [is_dir follow_links]. rewrite !total_app, IHes. reflexivity.
  - destruct tg.
    + cbn [is_dir]. rewrite !total_app, IHes.
      unfold total at 1 3. cbn [fold_right]. rewrite Hfile. reflexivity.
    + cbn [is_dir islink]. rewrite total_app, IHes. reflexivity.
    + cbn [is_dir]. rewrite total_app, IHes.
      unfold total at 2. cbn [fold_right]. rewrite Hdangling. lia.
  - change (is_dir (follow_links (Dir b es'))) with true.
    change (islink (follow_links (Dir b es'))) with false.
    cbn [is_dir islink]. rewrite !total_app, IHes, Hc. reflexivity.
Qed.

Lemma listed_follow_links (f : node -> Z) :
  (forall o sz, f (Symlink o (ToFile sz)) = f (File 0 sz true)) ->
  (forall o, f (Symlink o Dangling) = 0) ->
  forall t, total f (listed (follow_links t)) = total f (listed t).
Proof.
  intros Hfile Hdangling.
  induction t as [i s b|o sz|o b es IH|o|b es IH] using node_ind';
    try reflexivity.
  - rewrite follow_links_link, listed_link.
    apply listed_follow_links_dir; assumption.
  - apply listed_follow_links_dir; assumption.
Qed.

(** C7 (amended).  Among the entries met during the walk, a symbolic link
    to a directory is not entered and nothing behind it is counted, a
    dangling link counts for nothing, and a link to a file counts as one
    file of the size of its target; the own size of a link is never used.
    Only the path of the entry itself is walked through a link.  So the
    outcome of an aggregation is that of the tree without its links
    ([follow_links]): the directory itself in place of a link to it at the
    top, a regular file of the size of the target in place of every link
    to a file, and every other link left out with all that is behind
    it. *)
Theorem links_count_with_target_size fs fs' item t :
  embedded_null (path item) = false ->
  fs (path item) = Some t ->
  fs' (path item) = Some (follow_links t) ->
  calculate_directory_info fs item idle =
  calculate_directory_info fs' item idle.
Proof.
  intros Hn Hf Hf'.
  rewrite (calculate_idle fs item _ (walk_found fs _ t Hn Hf)).
  rewrite (calculate_idle fs' item _ (walk_found fs' _ _ Hn Hf')).
  rewrite !walk_listed.
  rewrite (listed_follow_links weight), (listed_follow_links counted);
    try reflexivity.
Qed.

Lemma links_count_with_target_size_witness :
  calculate_directory_info (fs_at "/r" tree_with_links)
    (new_FileItem "r" "/r") idle =
  calculate_directory_info (fs_at "/r" (follow_links tree_with_links))
    (new_FileItem "r" "/r") idle.
Proof.
  apply (links_count_with_target_size _ _ _ tree_with_links); reflexivity.
Defined.

(** C7, as stated, fails: for a directory holding one symbolic link, of
    own size 4, to a file of 100 bytes, the method reports 100 bytes and
    one file. *)
Lemma link_counts_with_target_size_not_its_own :
  let it' := fst (calculate_directory_info (fs_at "/r" tree_one_link)
                    (new_FileItem "r" "/r") idle) in
  tree_one_link = Dir true [("link", Symlink 4 (ToFile 100))] /\
  size it' = Some 100 /\ file_count it' = Some 1 /\ size it' <> Some 4.
Proof. vm_compute. repeat split; try reflexivity; discriminate. Qed.

(** In [tree_with_links] the link [d] leads to a directory holding 1000
    bytes.  Computed for the directory that holds the link, the sums leave
    these bytes out: 105 bytes in 2 files.  Computed for the row that the
    enumerator makes for [d] itself, they are 1000 bytes in 1 file. *)
Example directory_link_inside_and_at_the_top :
  let inside := fst (calculate_directory_info fs_with_links
                       (new_FileItem "r" "/r") idle) in
  let top := fst (calculate_directory_info fs_with_links
                    (new_FileItem "d" (join "/r" "d")) idle) in
  In (FileFound (new_FileItem "d" (join "/r" "d")))
     (fst (ScanWorker_run fs_with_links "/r" idle)) /\
  size inside = Some 105 /\ file_count inside = Some 2 /\
  size top = Some 1000 /\ file_count top = Some 1.
Proof. vm_compute. repeat split; try reflexivity. right; left; reflexivity. Qed.

(** ** The fields of an entry through a computation *)

(** C4 (amended).  An entry made by the enumerator has status NotComputed
    and no size.  During [calculate_directory_info] the status keeps the
    value it had on entry until the last assignment (nothing resets it to
    NotComputed, on a first computation or on a later one) and the last
    assignment moves it to Computed, Cancelled or the error status.  When
    the method ends as Computed or Cancelled, [size] and [file_count] are
    both set; when it ends in error both are as they were; and an entry
    that has both set keeps both set at every point of the run. *)
Theorem status_and_fields_through_a_run fs item s :
  let steps := fst (calculate_steps fs item s) in
  let it' := fst (calculate_directory_info fs item s) in
  (forall nm p, status (new_FileItem nm p) = NotComputed /\
                size (new_FileItem nm p) = None) /\
  it' = last steps item /\
  (forall x, In x (removelast steps) -> status x = status item) /\
  (status it' = Computed \/ status it' = Cancelled \/ status it' = CalcFailed) /\
  (status it' <> CalcFailed -> both_set it') /\
  (status it' = CalcFailed ->
   size it' = size item /\ file_count it' = file_count item) /\
  (both_set item -> forall x, In x steps -> both_set x).
Proof.
  unfold calculate_directory_info, calculate_steps, bind, both_set.
  destruct (walk fs (path item)) as [ts|].
  - destruct (walk_loop ts (0, 0) s) as [acc s1].
    destruct (get_stopped s1) as [b s2].
    cbn [fst snd ret last removelast].
    split; [intros; split; reflexivity|].
    split; [reflexivity|].
    split; [intros x [<-|[<-|[<-|[]]]]; reflexivity|].
    split; [destruct b; cbn; auto|].
    split; [intros _; cbn; split; discriminate|].
    split; [destruct b; cbn; discriminate|].
    intros [Hs Hc] x [<-|[<-|[<-|[<-|[]]]]]; cbn; split;
      try assumption; discriminate.
  - cbn [fst snd ret last removelast].
    split; [intros; split; reflexivity|].
    split; [reflexivity|].
    split; [intros x [<-|[]]; reflexivity|].
    split; [cbn; auto|].
    split; [cbn; intros H; exfalso; apply H; reflexivity|].
    split; [intros _; split; reflexivity|].
    intros [Hs Hc] x [<-|[<-|[]]]; cbn; split; assumption.
Qed.

Lemma status_and_fields_through_a_run_witness :
  both_set (computed_item "/r") /\
  forall x,
    In x (fst (calculate_steps (fs_at "/r" tree_two_files)
                 (computed_item "/r") (stop_after 2))) ->
    both_set x.
Proof.
  assert (H : both_set (computed_item "/r"))
    by (split; discriminate).
  split; [exact H|].
  apply (status_and_fields_through_a_run (fs_at "/r" tree_two_files)
           (computed_item "/r") (stop_after 2)).
  exact H.
Defined.

(** C4, as stated, fails twice.  The entry the enumerator makes for a
    directory has no size but a file count of 0.  And an entry that is
    Computed and is computed again under a stop request goes from Computed
    to Cancelled with no passage through NotComputed. *)
Lemma fresh_entry_and_recomputation_break_the_invariant :
  fst (ScanWorker_run (fs_at "/r" tree_with_subdirs) "/r" idle) =
    [FileFound (new_FileItem "d1" "/r/d1");
     FileFound (new_FileItem "d2" "/r/d2"); ScanFinished true] /\
  size (new_FileItem "d1" "/r/d1") = None /\
  file_count (new_FileItem "d1" "/r/d1") = Some 0 /\
  ~ (both_set (new_FileItem "d1" "/r/d1") \/
     both_unset (new_FileItem "d1" "/r/d1")) /\
  map status (fst (calculate_steps (fs_at "/r" tree_two_files)
                     (computed_item "/r") (stop_after 0))) =
    [Computed; Computed; Computed; Cancelled].
Proof.
  vm_compute. repeat split; try reflexivity.
  intros [[H _]|[_ H]]; [apply H; reflexivity|discriminate H].
Qed.

(** ** CalculateWorker.run *)

Lemma calculate_idle_state fs item :
  snd (calculate_directory_info fs item idle) = idle.
Proof.
  destruct (walk fs (path item)) as [ts|] eqn:Hw.
  - rewrite (calculate_idle fs item ts Hw). reflexivity.
  - rewrite (calculate_raises fs item idle Hw). reflexivity.
Qed.

(** Without a stop request the loop handles every item, in order. *)
Lemma calc_loop_idle fs items : forall i total,
  calc_loop fs items i total idle =
  (map (fun it => fst (calculate_directory_info fs it idle)) items,
   progress_from i total
     (map (fun it => fst (calculate_directory_info fs it idle)) items),
   idle).
Proof.
  induction items as [|item items IH]; intros i total; [reflexivity|].
  cbn [calc_loop]. unfold bind at 1. cbn [get_stopped idle stop_in stopped].
  fold idle. unfold bind. cbn [map progress_from].
  pose proof (calculate_idle_state fs item) as Hs.
  destruct (calculate_directory_info fs item idle) as [item' s'].
  cbn [snd] in Hs. subst s'. rewrite IH. reflexivity.
Qed.

(** C5 (amended).  In a batch that is not cancelled, an entry whose walk
    raises gets the error status and keeps its [size] and [file_count] as
    they were; every other entry, before and after it, is computed; one
    progress signal is emitted per entry and no error signal; the batch
    ends with its [finished] signal.  That signal carries no success flag:
    whatever the scanner state, cancelled or not, the last signal of a
    batch is the same [finished]. *)
Theorem failed_entry_does_not_stop_the_batch fs pre bad post :
  walk fs (path bad) = None ->
  let r := fst (CalculateWorker_run fs (pre ++ bad :: post) idle) in
  let done := fun it => fst (calculate_directory_info fs it idle) in
  fst r = map done pre ++ set_status CalcFailed bad :: map done post /\
  size (set_status CalcFailed bad) = size bad /\
  file_count (set_status CalcFailed bad) = file_count bad /\
  snd r = progress_from 1 (List.length (pre ++ bad :: post)) (fst r)
          ++ [CalcFinished] /\
  (forall items s,
     last (snd (fst (CalculateWorker_run fs items s))) CalcErrorSignal
     = CalcFinished).
Proof.
  intros Hw. unfold CalculateWorker_run, bind.
  rewrite calc_loop_idle. cbn [fst snd ret].
  rewrite map_app. cbn [map].
  rewrite (calculate_raises fs bad idle Hw). cbn [fst].
  repeat split.
  intros items s.
  destruct (calc_loop fs items 1 (List.length items) s) as [[its evs] s'].
  cbn [fst snd]. apply last_last.
Qed.

Lemma failed_entry_does_not_stop_the_batch_witness :
  let fs := fs_at "/r" tree_two_files in
  let r := fst (CalculateWorker_run fs
                  ([new_FileItem "r" "/r"] ++ new_FileItem "n" nul_path
                   :: [new_FileItem "r" "/r"]) idle) in
  map status (fst r) = [Computed; CalcFailed; Computed] /\
  List.length (snd r) = 4%nat.
Proof.
  destruct (failed_entry_does_not_stop_the_batch
              (fs_at "/r" tree_two_files)
              [new_FileItem "r" "/r"] (new_FileItem "n" nul_path)
              [new_FileItem "r" "/r"] eq_refl)
    as (Hitems & _ & _ & Hevs & _).
  cbv zeta. rewrite Hevs, Hitems. split; reflexivity.
Defined.

(** C5, as stated, fails.  An entry that was computed before and whose
    walk now raises keeps its size and file count, they are not unset.  A
    batch cancelled after its first read of the flag ends with the same
    [finished] signal as any other, after the progress signal of a
    Cancelled entry; nothing tells the caller that it did not succeed. *)
Lemma failed_entry_keeps_fields_and_cancel_is_not_reported :
  let fs := fs_at "/r" tree_two_files in
  fst (fst (CalculateWorker_run fs [computed_item nul_path] idle)) =
    [set_status CalcFailed (computed_item nul_path)] /\
  size (set_status CalcFailed (computed_item nul_path)) = Some 12 /\
  file_count (set_status CalcFailed (computed_item nul_path)) = Some 2 /\
  snd (fst (CalculateWorker_run fs [new_FileItem "r" "/r"] (stop_after 1))) =
    [CalcProgress
       (set_status Cancelled
          (set_file_count 0 (set_size 0 (new_FileItem "r" "/r")))) 1 1;
     CalcFinished] /\
  snd (fst (CalculateWorker_run fs [new_FileItem "r" "/r"] idle)) =
    [CalcProgress
       (set_status Computed
          (set_file_count 2 (set_size 12 (new_FileItem "r" "/r")))) 1 1;
     CalcFinished].
Proof. vm_compute. repeat split; reflexivity. Qed.

(** ** The stop flag at the start of the three operations *)

Lemma get_stopped_after_stop s :
  fst (get_stopped (snd (stop s))) = true.
Proof.
  unfold get_stopped, stop. cbn [snd stop_in stopped].
  destruct (stop_in s) as [[|k]|]; reflexivity.
Qed.

(** C10.  [scan_directory] and [backup_directories] clear the flag before
    anything else, so a [stop()] called before they begin has no effect on
    them.  [CalculateWorker.run] does not: after a [stop()] the batch
    handles no entry, emits no progress signal, and emits [finished]. *)
Theorem stop_before_batch_is_cleared_except_for_calculation
    dst_exists fs (s : FileScanner) :
  (forall p,
     ScanWorker_run fs p (snd (stop s)) =
     ScanWorker_run fs p {| stopped := false; stop_in := stop_in s |}) /\
  (forall src_paths dest_path,
     backup_directories dst_exists fs src_paths dest_path (snd (stop s)) =
     backup_directories dst_exists fs src_paths dest_path
       {| stopped := false; stop_in := stop_in s |}) /\
  (forall items,
     fst (CalculateWorker_run fs items (snd (stop s))) =
     (items, [CalcFinished])).
Proof.
  split; [|split].
  - intros p. reflexivity.
  - intros src_paths dest_path. reflexivity.
  - intros items. unfold CalculateWorker_run, bind.
    destruct items as [|item items]; [reflexivity|].
    cbn [calc_loop]. unfold bind.
    pose proof (get_stopped_after_stop s) as H.
    destruct (get_stopped (snd (stop s))) as [b s'].
    cbn [fst] in H. subst b. reflexivity.
Qed.

(** ** ScanWorker.run *)

Lemma found_not_error root es : ~ In ScanErrorSignal (found root es).
Proof.
  unfold found. intros H. apply in_map_iff in H.
  destruct H as (e & He & _). discriminate He.
Qed.

(** The listing loop when the stop lands after [k] reads: the signals are
    those of a prefix of the listing, two reads at least were made for
    each of them, and nothing is emitted once the stop has landed. *)
Lemma scan_entries_stop_after root es : forall k,
  if (k <? scan_reads es)%nat
  then exists j,
         scan_entries root es file_found_body (stop_after k) =
           (found root (firstn j es), stopped_now) /\
         (2 * List.length (found root (firstn j es)) <= k)%nat
  else scan_entries root es file_found_body (stop_after k) =
         (found root es, stop_after (k - scan_reads es)).
Proof.
  induction es as [|[nm c] es IH]; intros k.
  - cbn. rewrite Nat.sub_0_r. reflexivity.
  - remember (scan_entries root ((nm, c) :: es) file_found_body
                (stop_after k)) as r eqn:Hr.
    cbn [scan_entries] in Hr. unfold bind at 1 in Hr.
    cbn [scan_reads fold_right snd]. fold (scan_reads es).
    unfold found. cbn [filter snd].
    destruct k as [|k].
    + cbn in Hr. subst r.
      replace (0 <? (if is_dir c then 2 else 1) + scan_reads es)%nat
        with true by (symmetry; apply Nat.ltb_lt; destruct (is_dir c); lia).
      exists 0%nat. split; [reflexivity|cbn; lia].
    + cbn [get_stopped stop_after stop_in stopped] in Hr.
      fold (stop_after k) in Hr.
      destruct (is_dir c) eqn:D.
      * unfold bind at 1, file_found_body at 1, bind at 1 in Hr.
        destruct k as [|k].
        -- cbn in Hr. subst r.
           replace (1 <? 2 + scan_reads es)%nat with true
             by (symmetry; apply Nat.ltb_lt; lia).
           exists 0%nat. split; [reflexivity|cbn; lia].
        -- cbn [get_stopped stop_after stop_in stopped ret] in Hr.
           fold (stop_after k) in Hr. unfold bind in Hr.
           specialize (IH k).
           destruct (k <? scan_reads es)%nat eqn:B.
           ++ apply Nat.ltb_lt in B.
              replace (S (S k) <? 2 + scan_reads es)%nat with true
                by (symmetry; apply Nat.ltb_lt; lia).
              destruct IH as (j & E & Hj). exists (S j).
              rewrite E in Hr. subst r.
              cbn [firstn filter snd]. rewrite D.
              split; [reflexivity|].
              cbn [map List.length]. unfold found in Hj. lia.
           ++ apply Nat.ltb_ge in B.
              replace (S (S k) <? 2 + scan_reads es)%nat with false
                by (symmetry; apply Nat.ltb_ge; lia).
              rewrite IH in Hr. subst r. cbn [map fst ret].
              replace (S (S k) - (2 + scan_reads es))%nat
                with (k - scan_reads es)%nat by lia.
              reflexivity.
      * specialize (IH k).
        change (S k <? 1 + scan_reads es)%nat with (k <? scan_reads es)%nat.
        destruct (k <? scan_reads es)%nat eqn:B.
        -- destruct IH as (j & E & Hj). exists (S j).
           cbn [firstn filter snd]. rewrite D.
           subst r. split; [exact E|]. unfold found in Hj. lia.
        -- subst r. rewrite IH. reflexivity.
Qed.

(** C9.  The flag is read before each entry is yielded.  When the stop
    request lands at any read of [ScanWorker.run] (after [k] reads, [k] up
    to the number of reads of the listing loop), the signals are the
    directories of a prefix of the listing, none of them found after the
    stop landed, followed by [finished(False)]; no error signal is
    emitted. *)
Theorem cancelled_scan_ends_with_finished_false fs p es (b : bool) k :
  scandir fs p = Some es ->
  (k <= scan_reads es)%nat ->
  exists j,
    fst (ScanWorker_run fs p {| stopped := b; stop_in := Some k |}) =
      found p (firstn j es) ++ [ScanFinished false] /\
    (2 * List.length (found p (firstn j es)) <= k)%nat /\
    ~ In ScanErrorSignal (found p (firstn j es)).
Proof.
  intros Hs Hk. unfold ScanWorker_run, scan_directory, bind.
  cbn [clear_stopped stop_in]. fold (stop_after k). rewrite Hs.
  pose proof (scan_entries_stop_after p es k) as H.
  destruct (k <? scan_reads es)%nat eqn:B.
  - destruct H as (j & E & Hj). exists j. rewrite E.
    split; [reflexivity|]. split; [exact Hj|apply found_not_error].
  - apply Nat.ltb_ge in B. assert (k = scan_reads es) as -> by lia.
    rewrite H, Nat.sub_diag. exists (List.length es).
    rewrite firstn_all. split; [reflexivity|].
    split; [|apply found_not_error].
    clear. induction es as [|[nm c] es IH]; [cbn; lia|].
    unfold found in *. cbn [scan_reads fold_right filter snd].
    fold (scan_reads es).
    destruct (is_dir c); cbn [map List.length]; lia.
Qed.

Lemma cancelled_scan_ends_with_finished_false_witness :
  exists j,
    fst (ScanWorker_run (fs_at "/r" tree_with_subdirs) "/r"
           {| stopped := true; stop_in := Some 3%nat |}) =
      found "/r" (firstn j [("d1", Dir true [("a", File 1 5 true)]);
                            ("f", File 2 7 true);
                            ("d2", Dir true [])])
      ++ [ScanFinished false] /\
    (2 * List.length
           (found "/r" (firstn j [("d1", Dir true [("a", File 1 5 true)]);
                                  ("f", File 2 7 true);
                                  ("d2", Dir true [])])) <= 3)%nat /\
    ~ In ScanErrorSignal
         (found "/r" (firstn j [("d1", Dir true [("a", File 1 5 true)]);
                                ("f", File 2 7 true);
                                ("d2", Dir true [])])).
Proof.
  apply (cancelled_scan_ends_with_finished_false
           (fs_at "/r" tree_with_subdirs) "/r" _ true 3).
  - reflexivity.
  - vm_compute. lia.
Defined.

(** ** backup_directories *)

Lemma backup_loop_abort de fs dest total bad post res e s2 s3 :
  res <> CopyOk ->
  forall pre i s E s1,
    sources_copied de fs dest total pre i s E s1 ->
    get_stopped s1 = (false, s2) ->
    copy_source de fs bad dest (i + List.length pre) total s2 = (res, e, s3) ->
    backup_loop de fs (pre ++ bad :: post) dest i total s
    = (false, E ++ e, s3).
Proof.
  intros Hres pre i s E s1 Hpre.
  induction Hpre as [i s|src rest i s s1 s2' s3' e1 e2 Hg Hc Hrest IH];
    intros Hg2 Hbad.
  - cbn [app backup_loop List.length] in *. rewrite Nat.add_0_r in Hbad.
    unfold bind. rewrite Hg2, Hbad. cbn [fst snd].
    destruct res; [contradiction|reflexivity|reflexivity].
  - cbn [app backup_loop]. unfold bind. rewrite Hg, Hc. cbn [fst snd].
    rewrite IH.
    + cbn [fst snd ret]. rewrite app_assoc. reflexivity.
    + exact Hg2.
    + cbn [List.length] in Hbad.
      replace (S i + List.length rest)%nat
        with (i + S (List.length rest))%nat by lia.
      exact Hbad.
Qed.

(** C6.  In a copy batch, when the sources before [bad] have been copied
    and copying [bad] fails (with any error, at any point of its tree),
    [backup_directories] returns [False] at once: whatever sources follow,
    none is touched and the flag is not read again.  The worker emits
    [finished(False)].  Everything done to the destination before the
    failure, for the earlier sources and for [bad] itself, stays done:
    nothing is undone. *)
Theorem failing_source_aborts_the_batch
    de fs dest pre bad post s0 E s1 s2 res e s3 :
  let total := List.length (pre ++ bad :: post) in
  sources_copied de fs dest total pre 1 (snd (clear_stopped s0)) E s1 ->
  get_stopped s1 = (false, s2) ->
  copy_source de fs bad dest (S (List.length pre)) total s2 = (res, e, s3) ->
  res <> CopyOk ->
  backup_directories de fs (pre ++ bad :: post) dest s0
    = (false, E ++ e, s3) /\
  BackupWorker_run de fs (pre ++ bad :: post) dest s0
    = (E ++ e ++ [BackupFinished false], s3).
Proof.
  intros total Hpre Hg Hbad Hres.
  assert (H : backup_directories de fs (pre ++ bad :: post) dest s0
              = (false, E ++ e, s3)).
  { unfold backup_directories, bind. cbn [clear_stopped].
    apply (backup_loop_abort de fs dest total bad post res e s2 s3 Hres
             pre 1%nat _ E s1 Hpre Hg Hbad). }
  split; [exact H|].
  unfold BackupWorker_run, bind. rewrite H. cbn [fst snd ret].
  rewrite app_assoc. reflexivity.
Qed.

Lemma failing_source_aborts_the_batch_witness :
  let E := snd (fst (copy_source empty_destination fs_backup
                       "/r/ok" "/b" 1 3 idle)) in
  let e := snd (fst (copy_source empty_destination fs_backup
                       "/r/bad" "/b" 2 3 idle)) in
  backup_directories empty_destination fs_backup
    (["/r/ok"] ++ "/r/bad" :: ["/r/later"]) "/b" idle
    = (false, (E ++ []) ++ e, idle) /\
  BackupWorker_run empty_destination fs_backup
    (["/r/ok"] ++ "/r/bad" :: ["/r/later"]) "/b" idle
    = ((E ++ []) ++ e ++ [BackupFinished false], idle).
Proof.
  apply (failing_source_aborts_the_batch empty_destination fs_backup "/b"
           ["/r/ok"] "/r/bad" ["/r/later"] idle _ idle idle CopyOSError).
  - eapply copied_cons.
    + reflexivity.
    + vm_compute. reflexivity.
    + apply copied_nil.
  - reflexivity.
  - vm_compute. reflexivity.
  - discriminate.
Defined.

(** What the batch of the example leaves behind: the first source whole,
    the readable file of the second, nothing of the third. *)
Example failing_batch_effects :
  fst (BackupWorker_run empty_destination fs_backup
         ["/r/ok"; "/r/bad"; "/r/later"] "/b" idle) =
  [MakeDirs "/b/ok"; OpenWrite "/b/ok/a"; WriteChunk "/b/ok/a" 10;
   BackupProgress "/r/ok/a" 1 3 10; CopyStat "/b/ok/a"; CopyStat "/b/ok";
   MakeDirs "/b/bad"; OpenWrite "/b/bad/x"; WriteChunk "/b/bad/x" 3;
   BackupProgress "/r/bad/x" 2 3 3; CopyStat "/b/bad/x"; CopyStat "/b/bad";
   BackupFinished false].
Proof. vm_compute. reflexivity. Qed.

(** ** _start_worker *)

(** C3 (what the code does).  [_start_worker] leaves the scanner alone:
    the worker that was running goes on to its normal end while the caller
    waits, exactly as if nothing had been submitted.  With a scan of two
    subdirectories running and a calculation submitted, the scan emits both
    entries and [finished(True)]; only then do the signals of the
    calculation follow. *)
Theorem start_worker_waits_without_stopping :
  (forall fs de a b s,
     fst (submit_while_running fs de a b s) =
     fst (Worker_run fs de a s)
     ++ fst (Worker_run fs de b (snd (Worker_run fs de a s)))) /\
  fst (submit_while_running (fs_at "/r" tree_with_subdirs) empty_destination
         (ScanWorker "/r") (CalculateWorker [new_FileItem "r" "/r"]) idle) =
  [OfScan (FileFound (new_FileItem "d1" "/r/d1"));
   OfScan (FileFound (new_FileItem "d2" "/r/d2"));
   OfScan (ScanFinished true);
   OfCalc (CalcProgress
             (set_status Computed
                (set_file_count 2 (set_size 12 (new_FileItem "r" "/r"))))
             1 1);
   OfCalc CalcFinished].
Proof.
  split.
  - intros fs de a b s.
    unfold submit_while_running, _start_worker, QThread_quit, QThread_wait,
      bind, ret.
    cbn [_current_worker].
    destruct (Worker_run fs de a s) as [evs s1]. cbn [fst snd].
    destruct (Worker_run fs de b s1) as [evs' s2]. reflexivity.
  - vm_compute. reflexivity.
Qed.

(** ** The size query is never made on a directory *)

(** What [os.walk] hands over as files holds no directory and no link to a
    directory: the two cases of [getsize] on directories are not used by
    [calculate_directory_info]. *)
Lemma os_walk_files_not_dir (t : node) :
  forall top,
    Forall (fun tr : triple =>
              Forall (fun e => is_dir (snd e) = false) (snd tr))
           (os_walk top t).
Proof.
  induction t as [i s b|o sz|o b es IH|o|b es IH] using node_ind';
    intros top; try (constructor; fail);
    [rewrite os_walk_link|];
    (destruct b; [|constructor]);
    cbn [os_walk]; constructor.
  - cbn [snd]. unfold nondirs_of. apply Forall_forall. intros e He.
    apply filter_In in He. destruct He as [_ He].
    apply negb_true_iff in He. exact He.
  - induction IH as [|[nm c] es Hc Hes IHes]; [constructor|].
    apply Forall_app. split; [|exact IHes].
    destruct (is_dir c && negb (islink c)); [apply Hc|constructor].
  - cbn [snd]. unfold nondirs_of. apply Forall_forall. intros e He.
    apply filter_In in He. destruct He as [_ He].
    apply negb_true_iff in He. exact He.
  - induction IH as [|[nm c] es Hc Hes IHes]; [constructor|].
    apply Forall_app. split; [|exact IHes].
    destruct (is_dir c && negb (islink c)); [apply Hc|constructor].
Qed.

(* ===================================================================== *)
(** * Further properties of the scanner and of the workers *)
(* ===================================================================== *)

(** ** ScanWorker.run without a stop request *)

Lemma scan_entries_idle root es :
  scan_entries root es file_found_body idle = (found root es, idle).
Proof.
  induction es as [|[nm c] es IH]; [reflexivity|].
  cbn [scan_entries]. unfold bind at 1. cbn [get_stopped idle stop_in stopped].
  fold idle. unfold found. cbn [filter snd].
  destruct (is_dir c).
  - unfold bind at 1, file_found_body at 1, bind at 1.
    cbn [get_stopped idle stop_in stopped ret]. fold idle.
    unfold bind. rewrite IH. reflexivity.
  - exact IH.
Qed.

(** X1.  Without a stop request, and whatever the flag was before,
    [ScanWorker.run] emits one [file_found] per directory of the listing
    (directories and links to directories, in listing order; files are
    passed over) and then [finished(True)]; when the path cannot be listed
    it emits the error signal and [finished(False)] and nothing else.  The
    flag is down afterwards. *)
Theorem scan_without_stop fs p (b : bool) :
  ScanWorker_run fs p {| stopped := b; stop_in := None |} =
  (match scandir fs p with
   | Some es => found p es ++ [ScanFinished true]
   | None => [ScanErrorSignal; ScanFinished false]
   end, idle).
Proof.
  unfold ScanWorker_run, scan_directory, bind.
  cbn [clear_stopped stop_in]. fold idle.
  destruct (scandir fs p) as [es|]; [|reflexivity].
  rewrite scan_entries_idle. reflexivity.
Qed.

(** ** calculate_directory_info on a path that is not a listable directory *)

(** X2.  When [os.scandir] fails on the path of the entry with an
    [OSError] (the path is missing, is a file, a link to a file or a
    dangling link, or is a directory, reached directly or through a link,
    that cannot be listed), [calculate_directory_info] does not end in
    error: [os.walk] yields nothing and the entry is Computed with size 0
    and file count 0. *)
Theorem calculate_unlistable_is_computed_empty fs item :
  embedded_null (path item) = false ->
  scandir fs (path item) = None ->
  calculate_directory_info fs item idle =
  (set_status Computed (set_file_count 0 (set_size 0 item)), idle).
Proof.
  intros Hn Hd.
  assert (Hw : walk fs (path item) = Some []).
  { unfold walk. unfold scandir in Hd. rewrite Hn in *.
    destruct (fs (path item)) as [[i s b|o [sz|[|] es|]|[|] es]|];
      try reflexivity; discriminate Hd. }
  rewrite (calculate_idle fs item [] Hw). reflexivity.
Qed.

Lemma calculate_unlistable_is_computed_empty_witness :
  calculate_directory_info (fs_at "/r" (Dir false [("a", File 1 5 true)]))
    (new_FileItem "r" "/r") idle =
  (set_status Computed
     (set_file_count 0 (set_size 0 (new_FileItem "r" "/r"))), idle) /\
  calculate_directory_info (fs_at "/r" tree_two_files)
    (new_FileItem "gone" "/gone") idle =
  (set_status Computed
     (set_file_count 0 (set_size 0 (new_FileItem "gone" "/gone"))), idle) /\
  calculate_directory_info
    (fs_at "/r" (Symlink 2 (ToDir false [("a", File 1 5 true)])))
    (new_FileItem "r" "/r") idle =
  (set_status Computed
     (set_file_count 0 (set_size 0 (new_FileItem "r" "/r"))), idle).
Proof.
  split; [|split];
    apply calculate_unlistable_is_computed_empty; reflexivity.
Defined.

(** ** CalculateWorker.run under any stop request *)

Lemma calculate_same_identity fs item s :
  same_identity (fst (calculate_directory_info fs item s)) item.
Proof.
  unfold calculate_directory_info, bind, same_identity.
  destruct (walk fs (path item)) as [ts|]; [|repeat split].
  destruct (walk_loop ts (0, 0) s) as [acc s1].
  destruct (get_stopped s1) as [b s2]. repeat split.
Qed.

Lemma calc_loop_prefix fs items : forall i total s,
  exists done,
    let r := fst (calc_loop fs items i total s) in
    fst r = done ++ skipn (List.length done) items /\
    Forall2 same_identity done (firstn (List.length done) items) /\
    snd r = progress_from i total done.
Proof.
  induction items as [|item items IH]; intros i total s.
  - exists []. repeat split. constructor.
  - remember (calc_loop fs (item :: items) i total s) as R eqn:HR.
    cbn [calc_loop] in HR. unfold bind at 1 in HR.
    destruct (get_stopped s) as [[|] s1].
    + subst R. exists []. repeat split. constructor.
    + unfold bind in HR.
      pose proof (calculate_same_identity fs item s1) as Hid.
      destruct (calculate_directory_info fs item s1) as [item' s2].
      cbn [fst] in Hid.
      destruct (IH (S i) total s2) as (done & Hitems & Hids & Hevs).
      destruct (calc_loop fs items (S i) total s2) as [[its evs] s3].
      cbn [fst snd] in *. subst R. exists (item' :: done).
      cbn [List.length skipn firstn app progress_from ret fst snd].
      split; [rewrite Hitems at 1; reflexivity|].
      split; [constructor; assumption|].
      rewrite Hevs. reflexivity.
Qed.

(** X3.  Whatever the scanner state and whenever a stop request lands, a
    calculation batch handles a prefix of its entries and leaves the rest as
    they were; the entries it handled keep their name, path and check mark;
    the progress signals are those of the handled entries, numbered 1, 2,
    ... out of the length of the batch, and [finished] comes last. *)
Theorem calculation_batch_handles_a_prefix fs items s :
  exists done,
    let r := fst (CalculateWorker_run fs items s) in
    fst r = done ++ skipn (List.length done) items /\
    Forall2 same_identity done (firstn (List.length done) items) /\
    snd r = progress_from 1 (List.length items) done ++ [CalcFinished].
Proof.
  unfold CalculateWorker_run, bind.
  destruct (calc_loop_prefix fs items 1 (List.length items) s)
    as (done & Hitems & Hids & Hevs).
  destruct (calc_loop fs items 1 (List.length items) s) as [[its evs] s'].
  cbn [fst snd] in *. exists done. cbn [ret fst snd].
  split; [exact Hitems|]. split; [exact Hids|]. rewrite Hevs. reflexivity.
Qed.

(** ** _copy_with_progress *)

Lemma sum_list_app l1 l2 : sum_list (l1 ++ l2) = sum_list l1 + sum_list l2.
Proof.
  unfold sum_list. induction l1 as [|x l1 IH]; cbn [fold_right app]; lia.
Qed.

Lemma sum_list_repeat (x : Z) (n : nat) :
  sum_list (repeat x n) = x * Z.of_nat n.
Proof.
  unfold sum_list. induction n as [|n IH]; [cbn; lia|].
  cbn [repeat fold_right]. rewrite IH. lia.
Qed.

(** A file of [sz >= 0] bytes is read in buffers that are never empty,
    hold 8192 bytes at most and add up to [sz]. *)
Theorem chunks_cover_the_file (sz : Z) :
  0 <= sz ->
  sum_list (chunks sz) = sz /\
  Forall (fun b => 0 < b <= 8192) (chunks sz).
Proof.
  intros Hsz. unfold chunks.
  pose proof (Z.div_mod sz 8192 ltac:(lia)) as Hdm.
  pose proof (Z.mod_pos_bound sz 8192 ltac:(lia)) as Hm.
  assert (Hq : 0 <= sz / 8192) by (apply Z.div_pos; lia).
  split.
  - rewrite sum_list_app, sum_list_repeat, Z2Nat.id by exact Hq.
    destruct (sz mod 8192 =? 0) eqn:E.
    + apply Z.eqb_eq in E. unfold sum_list. cbn [fold_right]. lia.
    + unfold sum_list. cbn [fold_right]. lia.
  - apply Forall_app. split.
    + apply Forall_forall. intros b Hb. apply repeat_spec in Hb. lia.
    + destruct (sz mod 8192 =? 0) eqn:E; [constructor|].
      apply Z.eqb_neq in E. constructor; [lia|constructor].
Qed.

Lemma chunks_cover_the_file_witness :
  sum_list (chunks 20000) = 20000 /\
  Forall (fun b => 0 < b <= 8192) (chunks 20000).
Proof. apply (chunks_cover_the_file 20000). lia. Defined.

Lemma chunk_loop_idle src dst current total bufs : forall copied,
  chunk_loop src dst current total bufs copied idle =
  (true, chunk_effects src dst current total bufs copied, idle).
Proof.
  induction bufs as [|b bufs IH]; intros copied; [reflexivity|].
  cbn [chunk_loop]. unfold bind at 1. cbn [get_stopped idle stop_in stopped].
  fold idle. unfold bind. rewrite IH. reflexivity.
Qed.

Lemma chunk_loop_stop_after src dst current total bufs : forall copied k,
  (k <= List.length bufs)%nat ->
  chunk_loop src dst current total bufs copied (stop_after k) =
  (false, chunk_effects src dst current total (firstn k bufs) copied,
   stopped_now).
Proof.
  induction bufs as [|b bufs IH]; intros copied k Hk.
  - cbn [List.length] in Hk. assert (k = 0%nat) as -> by lia. reflexivity.
  - destruct k as [|k]; [reflexivity|].
    cbn [chunk_loop]. unfold bind at 1.
    cbn [get_stopped stop_after stop_in stopped]. fold (stop_after k).
    unfold bind. rewrite IH by (cbn [List.length] in Hk; lia). reflexivity.
Qed.

Lemma written_chunk_effects src dst current total bufs : forall copied,
  written (chunk_effects src dst current total bufs copied) = sum_list bufs.
Proof.
  unfold written, sum_list.
  induction bufs as [|b bufs IH]; intros copied; [reflexivity|].
  cbn [chunk_effects fold_right]. rewrite IH. reflexivity.
Qed.

Lemma progress_chunk_effects src dst current total bufs : forall copied,
  progress_values (chunk_effects src dst current total bufs copied)
  = running copied bufs.
Proof.
  unfold progress_values.
  induction bufs as [|b bufs IH]; intros copied; [reflexivity|].
  cbn [chunk_effects flat_map running app]. rewrite IH. reflexivity.
Qed.

Lemma running_last bufs : forall copied d,
  bufs <> [] ->
  last (running copied bufs) d = copied + sum_list bufs.
Proof.
  unfold sum_list.
  induction bufs as [|b bufs IH]; intros copied d Hne; [contradiction|].
  destruct bufs as [|b' bufs].
  - cbn. lia.
  - change (running copied (b :: b' :: bufs))
      with ((copied + b) :: running (copied + b) (b' :: bufs)).
    change (last ((copied + b) :: running (copied + b) (b' :: bufs)) d)
      with (last (running (copied + b) (b' :: bufs)) d).
    rewrite IH by discriminate. cbn [fold_right]. lia.
Qed.

Lemma running_increasing bufs : forall copied,
  Forall (fun b => 0 < b) bufs ->
  Forall (fun v => copied < v) (running copied bufs) /\
  StronglySorted Z.lt (running copied bufs).
Proof.
  induction bufs as [|b bufs IH]; intros copied Hpos.
  - split; constructor.
  - inversion Hpos as [|? ? Hb Hrest]. subst.
    destruct (IH (copied + b) Hrest) as [Hgt Hsorted].
    cbn [running]. split.
    + constructor; [lia|].
      eapply Forall_impl; [|exact Hgt]. cbn. intros v Hv. lia.
    + constructor; assumption.
Qed.

Lemma buffer_to_chunk_effects src dst current total bufs : forall copied,
  Forall (fun b => 0 < b <= 8192) bufs ->
  Forall (buffer_to dst) (chunk_effects src dst current total bufs copied).
Proof.
  induction bufs as [|b bufs IH]; intros copied Hb; [constructor|].
  inversion Hb as [|? ? Hb1 Hb2]. subst.
  cbn [chunk_effects]. constructor; [split; [reflexivity|exact Hb1]|].
  constructor; [exact I|]. apply IH. exact Hb2.
Qed.

Lemma writes_chunk_effects src dst current total bufs : forall copied,
  writes (chunk_effects src dst current total bufs copied) =
  Z.of_nat (List.length bufs).
Proof.
  unfold writes.
  induction bufs as [|b bufs IH]; intros copied; [reflexivity|].
  cbn [chunk_effects fold_right List.length]. rewrite IH. lia.
Qed.

(** The file is read in [ceil(sz / 8192)] buffers. *)
Lemma chunks_length (sz : Z) :
  0 <= sz -> Z.of_nat (List.length (chunks sz)) = (sz + 8191) / 8192.
Proof.
  intros Hsz. unfold chunks.
  rewrite length_app, repeat_length, Nat2Z.inj_add.
  rewrite Z2Nat.id by (apply Z.div_pos; lia).
  pose proof (Z.div_mod sz 8192 ltac:(lia)) as Hdm.
  pose proof (Z.mod_pos_bound sz 8192 ltac:(lia)) as Hr.
  destruct (sz mod 8192 =? 0) eqn:E.
  - apply Z.eqb_eq in E. cbn [List.length].
    apply (Z.div_unique _ _ _ 8191); cbn [Z.of_nat]; lia.
  - apply Z.eqb_neq in E. cbn [List.length].
    apply (Z.div_unique _ _ _ (sz mod 8192 - 1)); cbn [Z.of_nat]; lia.
Qed.

(** X4.  When no stop is requested, [_copy_with_progress] on a readable
    file of [sz >= 0] bytes opens the destination, writes exactly [sz]
    bytes to it, copies the file attributes last, and returns normally.
    Every write is to the destination file and is a buffer of 1 to 8192
    bytes, and there are [ceil(sz / 8192)] of them.  The byte counts of its
    progress signals increase strictly, and the last one is [sz]. *)
Theorem copy_with_progress_writes_the_whole_file
    src dst f current total sz :
  getsize f = Some sz ->
  0 <= sz ->
  exists effs,
    _copy_with_progress src dst f current total idle =
      (CopyOk, OpenWrite dst :: effs ++ [CopyStat dst], idle) /\
    written effs = sz /\
    Forall (buffer_to dst) effs /\
    writes effs = (sz + 8191) / 8192 /\
    StronglySorted Z.lt (progress_values effs) /\
    last (progress_values effs) 0 = sz.
Proof.
  intros Hg Hsz. unfold _copy_with_progress, bind. rewrite Hg.
  rewrite chunk_loop_idle. cbn [fst snd ret].
  exists (chunk_effects src dst current total (chunks sz) 0).
  destruct (chunks_cover_the_file sz Hsz) as [Hsum Hbounds].
  split; [reflexivity|].
  rewrite written_chunk_effects, progress_chunk_effects.
  split; [exact Hsum|].
  split; [apply buffer_to_chunk_effects; exact Hbounds|].
  split; [rewrite writes_chunk_effects; apply chunks_length; exact Hsz|].
  split.
  - apply running_increasing.
    eapply Forall_impl; [|exact Hbounds]. cbn. intros b Hb. lia.
  - destruct (chunks sz) as [|b bufs] eqn:E.
    + cbn in Hsum. cbn. lia.
    + rewrite running_last by discriminate. lia.
Qed.

Lemma copy_with_progress_writes_the_whole_file_witness :
  exists effs,
    _copy_with_progress "/r/a" "/b/a" (File 1 20000 true) 1 1 idle =
      (CopyOk, OpenWrite "/b/a" :: effs ++ [CopyStat "/b/a"], idle) /\
    written effs = 20000 /\
    Forall (buffer_to "/b/a") effs /\
    writes effs = (20000 + 8191) / 8192 /\
    StronglySorted Z.lt (progress_values effs) /\
    last (progress_values effs) 0 = 20000.
Proof.
  apply (copy_with_progress_writes_the_whole_file
           "/r/a" "/b/a" (File 1 20000 true) 1 1 20000).
  - reflexivity.
  - lia.
Defined.

Lemma chunk_effects_no_copystat src dst current total bufs : forall copied q,
  ~ In (CopyStat q) (chunk_effects src dst current total bufs copied).
Proof.
  induction bufs as [|b bufs IH]; intros copied q H; [exact H|].
  cbn [chunk_effects] in H.
  destruct H as [H|[H|H]]; try discriminate H. exact (IH _ _ H).
Qed.

(** X5.  When the stop request lands during the copy of a file, at one of
    the reads of the flag that precede the buffers or the end of the file
    (after [k] reads, [k] at most the number of buffers),
    [_copy_with_progress] leaves by an exception that is not an [OSError].
    The destination file has been opened and holds exactly the first [k]
    buffers; its attributes are not copied and nothing removes it. *)
Theorem copy_with_progress_cancelled_leaves_partial_file
    src dst f current total sz k :
  getsize f = Some sz ->
  (k <= List.length (chunks sz))%nat ->
  exists effs,
    _copy_with_progress src dst f current total (stop_after k) =
      (CopyException, OpenWrite dst :: effs, stopped_now) /\
    written effs = sum_list (firstn k (chunks sz)) /\
    (forall q, ~ In (CopyStat q) effs).
Proof.
  intros Hg Hk. unfold _copy_with_progress, bind. rewrite Hg.
  rewrite chunk_loop_stop_after by exact Hk. cbn [fst snd ret].
  exists (chunk_effects src dst current total (firstn k (chunks sz)) 0).
  split; [reflexivity|]. split.
  - apply written_chunk_effects.
  - intros q. apply chunk_effects_no_copystat.
Qed.

Lemma copy_with_progress_cancelled_leaves_partial_file_witness :
  exists effs,
    _copy_with_progress "/r/a" "/b/a" (File 1 20000 true) 1 1 (stop_after 2) =
      (CopyException, OpenWrite "/b/a" :: effs, stopped_now) /\
    written effs = sum_list (firstn 2 (chunks 20000)) /\
    (forall q, ~ In (CopyStat q) effs).
Proof.
  apply (copy_with_progress_cancelled_leaves_partial_file
           "/r/a" "/b/a" (File 1 20000 true) 1 1 20000 2).
  - reflexivity.
  - vm_compute. lia.
Defined.

(** ** backup_directories: the destination and the outcome *)

(** X6.  When the target directory of the first source already exists in
    the destination, the batch fails on it before anything is written:
    [backup_directories] returns [False], no directory is made and no file
    is opened, for that source or for any later one, and the worker emits
    [finished(False)] alone. *)
Theorem backup_onto_existing_target_writes_nothing
    de fs src rest dest (b : bool) :
  de (join dest (basename src)) = true ->
  backup_directories de fs (src :: rest) dest
    {| stopped := b; stop_in := None |} = (false, [], idle) /\
  BackupWorker_run de fs (src :: rest) dest
    {| stopped := b; stop_in := None |} = ([BackupFinished false], idle).
Proof.
  intros Hex.
  assert (H : backup_directories de fs (src :: rest) dest
                {| stopped := b; stop_in := None |} = (false, [], idle)).
  { unfold backup_directories, bind. cbn [clear_stopped stop_in]. fold idle.
    cbn [backup_loop]. unfold bind.
    cbn [get_stopped idle stop_in stopped]. fold idle.
    unfold copy_source.
    destruct (embedded_null src); [reflexivity|].
    destruct (fs src) as [[i s o|o [sz|[|] es|]|[|] es]|]; try reflexivity;
      cbn [copytree]; rewrite Hex; reflexivity. }
  split; [exact H|].
  unfold BackupWorker_run, bind. rewrite H. reflexivity.
Qed.

Lemma backup_onto_existing_target_writes_nothing_witness :
  backup_directories (fun p => String.eqb p "/b/ok") fs_backup
    ("/r/ok" :: ["/r/later"]) "/b"
    {| stopped := true; stop_in := None |} = (false, [], idle) /\
  BackupWorker_run (fun p => String.eqb p "/b/ok") fs_backup
    ("/r/ok" :: ["/r/later"]) "/b"
    {| stopped := true; stop_in := None |} = ([BackupFinished false], idle).
Proof.
  apply (backup_onto_existing_target_writes_nothing
           (fun p => String.eqb p "/b/ok") fs_backup "/r/ok" ["/r/later"]
           "/b" true).
  reflexivity.
Defined.

Lemma backup_loop_all de fs dest total (b : bool) s2 :
  forall srcs i s E s1,
    sources_copied de fs dest total srcs i s E s1 ->
    get_stopped s1 = (b, s2) ->
    backup_loop de fs srcs dest i total s = (negb b, E, s2).
Proof.
  intros srcs i s E s1 H.
  induction H as [i s|src rest i s s1 s2' s3' e1 e2 Hg Hc Hrest IH];
    intros Hend.
  - cbn [backup_loop]. unfold bind. rewrite Hend. reflexivity.
  - cbn [backup_loop]. unfold bind. rewrite Hg, Hc. cbn [fst snd].
    rewrite (IH Hend). reflexivity.
Qed.

(** X7.  When every source of a batch has been copied without error,
    [backup_directories] returns the negation of the flag as read after
    the last source: [True] when no stop was requested, and [False] when
    the request lands at that last read, although every source was copied
    in full.  The worker passes the value on in [finished]. *)
Theorem backup_result_is_the_final_flag
    de fs srcs dest s0 E s1 (b : bool) s2 :
  sources_copied de fs dest (List.length srcs) srcs 1
    (snd (clear_stopped s0)) E s1 ->
  get_stopped s1 = (b, s2) ->
  backup_directories de fs srcs dest s0 = (negb b, E, s2) /\
  BackupWorker_run de fs srcs dest s0 = (E ++ [BackupFinished (negb b)], s2).
Proof.
  intros Hall Hend.
  assert (H : backup_directories de fs srcs dest s0 = (negb b, E, s2)).
  { unfold backup_directories, bind. cbn [clear_stopped].
    apply (backup_loop_all de fs dest (List.length srcs) b s2
             srcs 1%nat _ E s1 Hall Hend). }
  split; [exact H|].
  unfold BackupWorker_run, bind. rewrite H. reflexivity.
Qed.

Lemma backup_result_is_the_final_flag_witness :
  let E := snd (fst (copy_source empty_destination fs_backup
                       "/r/ok" "/b" 1 1 (stop_after 2))) in
  backup_directories empty_destination fs_backup ["/r/ok"] "/b"
    (stop_after 3) = (negb true, E ++ [], stopped_now) /\
  BackupWorker_run empty_destination fs_backup ["/r/ok"] "/b"
    (stop_after 3) = ((E ++ []) ++ [BackupFinished (negb true)], stopped_now).
Proof.
  apply (backup_result_is_the_final_flag empty_destination fs_backup
           ["/r/ok"] "/b" (stop_after 3) _ (stop_after 0) true stopped_now).
  - eapply copied_cons.
    + reflexivity.
    + vm_compute. reflexivity.
    + apply copied_nil.
  - reflexivity.
Defined.

(** ** shutil.copytree with _copy_with_progress on a whole tree *)













(** ** os.path.basename of the path of a scanned entry *)

Lemma basename_from_app (a b : string) : forall acc,
  basename_from (a ++ b)%string acc = basename_from b (basename_from a acc).
Proof.
  induction a as [|c a IH]; intros acc; [reflexivity|].
  cbn [String.append basename_from].
  destruct (Ascii.eqb c "/"); apply IH.
Qed.

Lemma append_assoc_string (a b c : string) :
  ((a ++ b) ++ c = a ++ (b ++ c))%string.
Proof.
  induction a as [|x a IH]; [reflexivity|].
  cbn [String.append]. rewrite IH. reflexivity.
Qed.

Lemma basename_from_no_slash (n : string) : forall acc,
  no_slash n = true -> basename_from n acc = (acc ++ n)%string.
Proof.
  induction n as [|c n IH]; intros acc Hn.
  - cbn. induction acc as [|x acc IHacc]; [reflexivity|].
    cbn [String.append]. rewrite <- IHacc. reflexivity.
  - cbn [no_slash] in Hn. apply andb_true_iff in Hn. destruct Hn as [Hc Hn].
    apply negb_true_iff in Hc. cbn [basename_from]. rewrite Hc.
    rewrite (IH _ Hn), append_assoc_string. reflexivity.
Qed.

Lemma basename_from_ends_with_slash (a : string) :
  ends_with_slash a = true ->
  forall acc, basename_from a acc = EmptyString.
Proof.
  induction a as [|c a IH]; intros He acc; [discriminate He|].
  cbn [basename_from].
  destruct a as [|c' a'].
  - cbn [ends_with_slash] in He. rewrite He. reflexivity.
  - change (ends_with_slash (String c (String c' a')))
      with (ends_with_slash (String c' a')) in He.
    destruct (Ascii.eqb c "/"); apply (IH He).
Qed.

(** X10.  For every entry that the enumerator makes from a listing (a name
    holds no separator), [os.path.basename] of its path is its name: a
    backup puts the copy of the entry at the destination joined with that
    name. *)
Theorem scanned_entry_is_backed_up_under_its_name root nm dest :
  no_slash nm = true ->
  let item := new_FileItem nm (join root nm) in
  basename (path item) = name item /\
  join dest (basename (path item)) = join dest nm.
Proof.
  intros Hn. cbn [new_FileItem path name].
  assert (H : basename (join root nm) = nm).
  { unfold basename, join.
    destruct (starts_with_slash nm) eqn:Hs.
    { destruct nm as [|c r]; [discriminate Hs|].
      cbn [starts_with_slash] in Hs. cbn [no_slash] in Hn.
      rewrite Hs in Hn. discriminate Hn. }
    destruct root as [|c r].
    { cbn [String.append].
      apply (basename_from_no_slash nm EmptyString Hn). }
    destruct (ends_with_slash (String c r)) eqn:He.
    - rewrite basename_from_app, (basename_from_ends_with_slash _ He).
      apply (basename_from_no_slash nm EmptyString Hn).
    - rewrite basename_from_app.
      change ("/" ++ nm)%string with (String "/" nm).
      cbn [basename_from]. cbn [Ascii.eqb Bool.eqb].
      rewrite (basename_from_no_slash nm EmptyString Hn). reflexivity. }
  rewrite H. split; reflexivity.
Qed.

Lemma scanned_entry_is_backed_up_under_its_name_witness :
  let item := new_FileItem "photos" (join "/home/u" "photos") in
  basename (path item) = name item /\
  join "/backup" (basename (path item)) = join "/backup" "photos".
Proof.
  apply (scanned_entry_is_backed_up_under_its_name "/home/u" "photos"
           "/backup").
  reflexivity.
Defined.

(* ===================================================================== *)
(** * Properties of the configuration and of the error handler *)
(* ===================================================================== *)

(** ** ConfigManager.add_recent_directory *)

Lemma lookup_set_same key v c : lookup key (set_setting key v c) = Some v.
Proof.
  induction c as [|[k w] c IH]; cbn [set_setting lookup].
  - rewrite String.eqb_refl. reflexivity.
  - destruct (String.eqb k key) eqn:E; cbn [lookup]; rewrite E;
      [reflexivity|exact IH].
Qed.

Lemma lookup_set_other key key' v c :
  key <> key' -> lookup key (set_setting key' v c) = lookup key c.
Proof.
  intros Hne.
  induction c as [|[k w] c IH]; cbn [set_setting lookup].
  - destruct (String.eqb key' key) eqn:E; [|reflexivity].
    apply String.eqb_eq in E. congruence.
  - destruct (String.eqb k key') eqn:E; cbn [lookup].
    + apply String.eqb_eq in E. subst k.
      destruct (String.eqb key' key) eqn:E'; [|reflexivity].
      apply String.eqb_eq in E'. congruence.
    + rewrite IH. reflexivity.
Qed.

Lemma set_setting_present key v c :
  lookup key c = Some v -> set_setting key v c = c.
Proof.
  induction c as [|[k w] c IH]; intros H; [discriminate H|].
  cbn [lookup] in H. cbn [set_setting].
  destruct (String.eqb k key); [congruence|].
  rewrite (IH H). reflexivity.
Qed.

Lemma is_path_eq p v : is_path p v = true <-> v = VStr p.
Proof.
  destruct v as [s|l|]; cbn [is_path]; split; intros H; try discriminate.
  - apply String.eqb_eq in H. congruence.
  - injection H as ->. apply String.eqb_refl.
Qed.

Lemma remove_first_incl p l v : In v (remove_first p l) -> In v l.
Proof.
  induction l as [|x l IH]; [intros []|].
  cbn [remove_first]. destruct (is_path p x).
  - intros H. right. exact H.
  - intros [H|H]; [left; exact H|right; exact (IH H)].
Qed.

Lemma remove_first_nodup p l :
  NoDup l -> NoDup (remove_first p l) /\ ~ In (VStr p) (remove_first p l).
Proof.
  induction l as [|x l IH]; intros Hnd; [split; [constructor|intros []]|].
  inversion Hnd as [|? ? Hx Hl]. subst.
  cbn [remove_first]. destruct (is_path p x) eqn:E.
  - apply is_path_eq in E. subst x. split; assumption.
  - destruct (IH Hl) as [Hnd' Hnot]. split.
    + constructor; [|exact Hnd'].
      intros H. apply Hx. exact (remove_first_incl _ _ _ H).
    + intros [H|H]; [|exact (Hnot H)].
      subst x. cbn in E. rewrite String.eqb_refl in E. discriminate E.
Qed.

Lemma not_existsb_is_path p l :
  existsb (is_path p) l = false -> ~ In (VStr p) l.
Proof.
  intros H Hin.
  assert (existsb (is_path p) l = true).
  { apply existsb_exists. exists (VStr p). split; [exact Hin|].
    apply is_path_eq. reflexivity. }
  congruence.
Qed.

Lemma firstn_In {A : Type} (n : nat) (l : list A) (x : A) :
  In x (firstn n l) -> In x l.
Proof.
  intros H. rewrite <- (firstn_skipn n l). apply in_or_app. left. exact H.
Qed.

Lemma NoDup_firstn {A : Type} (n : nat) (l : list A) :
  NoDup l -> NoDup (firstn n l).
Proof.
  revert n. induction l as [|x l IH]; intros n Hnd.
  - rewrite firstn_nil. constructor.
  - destruct n as [|n]; [constructor|].
    inversion Hnd as [|? ? Hx Hl]. subst. cbn [firstn]. constructor.
    + intros H. apply Hx. exact (firstn_In _ _ _ H).
    + apply IH. exact Hl.
Qed.

(** The list that [add_recent_directory] stores. *)
Lemma add_recent_directory_list p w m l :
  recent_directories m = VList l ->
  recent_directories (add_recent_directory p w m) =
  VList (VStr p ::
         firstn 9 (if existsb (is_path p) l then remove_first p l else l)) /\
  get_setting "last_directory" VOther (_config (add_recent_directory p w m))
  = VStr p.
Proof.
  unfold recent_directories. intros Hl. unfold add_recent_directory.
  rewrite Hl. cbn [firstn].
  assert (Hc : forall x, _config (save_config w x) = _config x)
    by (intros x; destruct w; reflexivity).
  rewrite !Hc. cbn [_config]. unfold get_setting.
  rewrite lookup_set_other by discriminate.
  rewrite !lookup_set_same. split; reflexivity.
Qed.

(** X11.  After [add_recent_directory(path)] on a configuration whose list
    of recent directories is a list (or is absent), the path is the first
    element of the stored list, the list holds ten elements at most, every
    other element comes from the list as it was, a list without duplicates
    stays without duplicates (the path occurs once), and [last_directory]
    is the path. *)
Theorem add_recent_directory_puts_path_first p w m l :
  recent_directories m = VList l ->
  exists l',
    recent_directories (add_recent_directory p w m) = VList (VStr p :: l') /\
    (List.length (VStr p :: l') <= 10)%nat /\
    (forall v, In v l' -> In v l) /\
    (NoDup l -> NoDup (VStr p :: l')) /\
    get_setting "last_directory" VOther
      (_config (add_recent_directory p w m)) = VStr p.
Proof.
  intros Hl. destruct (add_recent_directory_list p w m l Hl) as [Hr Hlast].
  eexists. split; [exact Hr|].
  split; [cbn [List.length]; rewrite length_firstn; lia|].
  split; [|split; [|exact Hlast]].
  - intros v Hv. apply firstn_In in Hv.
    destruct (existsb (is_path p) l); [|exact Hv].
    exact (remove_first_incl _ _ _ Hv).
  - intros Hnd. constructor.
    + intros H. apply firstn_In in H.
      destruct (existsb (is_path p) l) eqn:E.
      * exact (proj2 (remove_first_nodup p l Hnd) H).
      * exact (not_existsb_is_path p l E H).
    + apply NoDup_firstn.
      destruct (existsb (is_path p) l); [|exact Hnd].
      exact (proj1 (remove_first_nodup p l Hnd)).
Qed.

Lemma add_recent_directory_puts_path_first_witness :
  let m := {| _config := [("recent_directories",
                           VList [VStr "/a"; VStr "/b"; VStr "/c"])];
              config_file := None |} in
  exists l',
    recent_directories (add_recent_directory "/b" true m)
      = VList (VStr "/b" :: l') /\
    (List.length (VStr "/b" :: l') <= 10)%nat /\
    (forall v, In v l' -> In v [VStr "/a"; VStr "/b"; VStr "/c"]) /\
    (NoDup [VStr "/a"; VStr "/b"; VStr "/c"] -> NoDup (VStr "/b" :: l')) /\
    get_setting "last_directory" VOther
      (_config (add_recent_directory "/b" true m)) = VStr "/b".
Proof.
  apply (add_recent_directory_puts_path_first "/b" true
           {| _config := [("recent_directories",
                           VList [VStr "/a"; VStr "/b"; VStr "/c"])];
              config_file := None |}).
  reflexivity.
Defined.

Lemma recent_list_again p X :
  firstn 10
    (VStr p ::
     (if existsb (is_path p) (VStr p :: firstn 9 X)
      then remove_first p (VStr p :: firstn 9 X)
      else VStr p :: firstn 9 X))
  = VStr p :: firstn 9 X.
Proof.
  change (existsb (is_path p) (VStr p :: firstn 9 X))
    with (String.eqb p p || existsb (is_path p) (firstn 9 X)).
  change (remove_first p (VStr p :: firstn 9 X))
    with (if String.eqb p p then firstn 9 X
          else VStr p :: remove_first p (firstn 9 X)).
  rewrite String.eqb_refl. cbn [orb].
  rewrite firstn_cons, firstn_firstn. reflexivity.
Qed.

(** X12.  Adding the same path twice in a row is the same as adding it
    once: the dictionary and the file are as after the first call. *)
Theorem add_recent_directory_twice p w m l :
  recent_directories m = VList l ->
  add_recent_directory p w (add_recent_directory p w m)
  = add_recent_directory p w m.
Proof.
  unfold recent_directories. intros Hl.
  set (X := if existsb (is_path p) l then remove_first p l else l).
  set (c1 := set_setting "last_directory" (VStr p)
               (set_setting "recent_directories"
                  (VList (VStr p :: firstn 9 X)) (_config m))).
  assert (Hfirst : add_recent_directory p w m
                   = save_config w {| _config := c1;
                                      config_file := config_file m |}).
  { unfold add_recent_directory. rewrite Hl. fold X.
    rewrite firstn_cons. reflexivity. }
  assert (Hrec : lookup "recent_directories" c1
                 = Some (VList (VStr p :: firstn 9 X))).
  { unfold c1. rewrite lookup_set_other by discriminate.
    apply lookup_set_same. }
  assert (Hlast : lookup "last_directory" c1 = Some (VStr p))
    by apply lookup_set_same.
  assert (Hagain : forall f,
    add_recent_directory p w {| _config := c1; config_file := f |}
    = save_config w {| _config := c1; config_file := f |}).
  { intros f. unfold add_recent_directory. cbn [_config config_file].
    unfold get_setting. rewrite Hrec, recent_list_again.
    rewrite (set_setting_present _ _ _ Hrec).
    rewrite (set_setting_present _ _ _ Hlast). reflexivity. }
  rewrite Hfirst.
  destruct w; cbn [save_config _config config_file] in *; apply Hagain.
Qed.

Lemma add_recent_directory_twice_witness :
  let m := {| _config := [("recent_directories",
                           VList [VStr "/a"; VStr "/b"; VStr "/c"])];
              config_file := None |} in
  add_recent_directory "/b" true (add_recent_directory "/b" true m)
  = add_recent_directory "/b" true m.
Proof.
  apply (add_recent_directory_twice "/b" true _
           [VStr "/a"; VStr "/b"; VStr "/c"]).
  reflexivity.
Defined.

(** X13.  The list is kept most recent first: after two different paths
    have been added, the second is the first element of the list and the
    first is the second. *)
Theorem add_recent_directory_most_recent_first p q w w' m l :
  recent_directories m = VList l ->
  p <> q ->
  exists l',
    recent_directories
      (add_recent_directory q w' (add_recent_directory p w m))
    = VList (VStr q :: VStr p :: l').
Proof.
  intros Hl Hne.
  destruct (add_recent_directory_list p w m l Hl) as [Hr _].
  destruct (add_recent_directory_list q w' _ _ Hr) as [Hr' _].
  rewrite Hr'. clear Hr Hr'.
  cbn [existsb is_path remove_first].
  assert (E : String.eqb p q = false) by (apply String.eqb_neq; exact Hne).
  rewrite E. cbn [orb].
  match goal with
  | |- context [existsb (is_path q) ?t] => destruct (existsb (is_path q) t)
  end; cbn [firstn]; eexists; reflexivity.
Qed.

Lemma add_recent_directory_most_recent_first_witness :
  let m := {| _config := []; config_file := None |} in
  exists l',
    recent_directories
      (add_recent_directory "/b" true (add_recent_directory "/a" false m))
    = VList (VStr "/b" :: VStr "/a" :: l').
Proof.
  apply (add_recent_directory_most_recent_first "/a" "/b" false true
           {| _config := []; config_file := None |} []).
  - reflexivity.
  - discriminate.
Defined.

(** ** ErrorHandler.handle_error behind show_error *)

Lemma show_error_count now title message details h :
  error_count (snd (show_error now title message details h))
  = error_count h + 1.
Proof.
  unfold show_error, handle_error.
  destruct (last_error_time h) as [t|]; [|reflexivity].
  destruct ((now - t <? 60000000) && (10 <? error_count h + 1)); reflexivity.
Qed.

Lemma show_errors_count calls : forall h,
  error_count (snd (show_errors calls h))
  = error_count h + Z.of_nat (List.length calls).
Proof.
  induction calls as [|[now [[title message] details]] calls IH]; intros h.
  - cbn. lia.
  - cbn [show_errors].
    pose proof (show_error_count now title message details h) as H1.
    destruct (show_error now title message details h) as [d h1].
    specialize (IH h1).
    destruct (show_errors calls h1) as [ds h2].
    cbn [snd List.length] in *. lia.
Qed.

(** The box that an accepted call opens. *)
Lemma show_error_early now title message details h :
  error_count h < 10 ->
  fst (show_error now title message details h)
  = ErrorBox title message (truthy details).
Proof.
  intros Hc. unfold show_error, handle_error.
  destruct (last_error_time h) as [t|]; [|reflexivity].
  replace (10 <? error_count h + 1) with false
    by (symmetry; apply Z.ltb_ge; lia).
  rewrite andb_false_r. reflexivity.
Qed.

(** X14.  Counting from a reset, every call of [show_error] is counted,
    and the first ten open their error box whatever the times at which
    they come: the warning that errors are too frequent cannot appear
    before the eleventh. *)
Theorem first_ten_errors_open_their_box calls h0 :
  let r := show_errors calls (reset_error_count h0) in
  error_count (snd r) = Z.of_nat (List.length calls) /\
  firstn 10 (fst r) =
    map (fun c => ErrorBox (fst (fst (snd c))) (snd (fst (snd c)))
                    (truthy (snd (snd c))))
        (firstn 10 calls).
Proof.
  cbv zeta. split.
  - rewrite show_errors_count. reflexivity.
  - assert (H : forall (k : nat) calls h,
               error_count h + Z.of_nat k <= 10 ->
               firstn k (fst (show_errors calls h)) =
               map (fun c => ErrorBox (fst (fst (snd c))) (snd (fst (snd c)))
                               (truthy (snd (snd c))))
                   (firstn k calls)).
    { clear. induction k as [|k IH]; intros calls h Hk; [reflexivity|].
      destruct calls as [|[now [[title message] details]] calls];
        [reflexivity|].
      cbn [show_errors].
      pose proof (show_error_early now title message details h ltac:(lia))
        as Hd.
      pose proof (show_error_count now title message details h) as Hc.
      destruct (show_error now title message details h) as [d h1].
      specialize (IH calls h1).
      destruct (show_errors calls h1) as [ds h2].
      cbn [fst snd firstn map] in *. subst d.
      rewrite IH by lia. reflexivity. }
    apply (H 10%nat). cbn. lia.
Qed.

Lemma show_errors_warnings_keep_time calls : forall h,
  Forall (fun d => d = TooFrequentWarning) (fst (show_errors calls h)) ->
  last_error_time (snd (show_errors calls h)) = last_error_time h.
Proof.
  induction calls as [|[now [[title message] details]] calls IH];
    intros h Hall; [reflexivity|].
  cbn [show_errors] in *.
  assert (Hstep :
    fst (show_error now title message details h) = TooFrequentWarning ->
    last_error_time (snd (show_error now title message details h))
    = last_error_time h).
  { unfold show_error, handle_error.
    destruct (last_error_time h) as [t|]; [|discriminate].
    destruct ((now - t <? 60000000) && (10 <? error_count h + 1));
      [reflexivity|discriminate]. }
  destruct (show_error now title message details h) as [d h1].
  specialize (IH h1).
  destruct (show_errors calls h1) as [ds h2].
  cbn [fst snd] in *. inversion Hall as [|? ? Hd Hds]. subst.
  rewrite (IH Hds). apply Hstep. reflexivity.
Qed.

(** X15.  From the eleventh call since a reset on, error boxes are at
    least one minute apart: if a call opens its box at time [t1], the
    calls after it get the warning, and a later call opens its box at time
    [t2], ten calls at least having come before that one, then
    [t2 - t1 >= 60] seconds.  A refused call does not move the time from
    which the minute is counted. *)
Theorem error_boxes_are_a_minute_apart
    h0 pre t1 c1 mid t2 c2 :
  let h1 := snd (show_errors pre (reset_error_count h0)) in
  let r1 := show_error t1 (fst (fst c1)) (snd (fst c1)) (snd c1) h1 in
  let rm := show_errors mid (snd r1) in
  let r2 := show_error t2 (fst (fst c2)) (snd (fst c2)) (snd c2) (snd rm) in
  fst r1 <> TooFrequentWarning ->
  Forall (fun d => d = TooFrequentWarning) (fst rm) ->
  fst r2 <> TooFrequentWarning ->
  (10 <= List.length pre + 1 + List.length mid)%nat ->
  t2 - t1 >= 60000000.
Proof.
  cbv zeta. intros H1 Hmid H2 Hlen.
  set (h1 := snd (show_errors pre (reset_error_count h0))) in *.
  assert (Hc1 : error_count h1 = Z.of_nat (List.length pre))
    by (unfold h1; rewrite show_errors_count; reflexivity).
  set (r1 := show_error t1 (fst (fst c1)) (snd (fst c1)) (snd c1) h1) in *.
  assert (Ht1 : last_error_time (snd r1) = Some t1).
  { unfold r1, show_error, handle_error in *.
    destruct (last_error_time h1) as [t|]; [|reflexivity].
    destruct ((t1 - t <? 60000000) && (10 <? error_count h1 + 1));
      [exfalso; apply H1; reflexivity|reflexivity]. }
  assert (Hc2 : error_count (snd r1) = Z.of_nat (List.length pre) + 1)
    by (unfold r1; rewrite show_error_count; lia).
  pose proof (show_errors_warnings_keep_time mid (snd r1) Hmid) as Ht.
  pose proof (show_errors_count mid (snd r1)) as Hc3.
  set (h3 := snd (show_errors mid (snd r1))) in *.
  rewrite Ht1 in Ht. rewrite Hc2 in Hc3.
  unfold show_error, handle_error in H2. rewrite Ht in H2.
  destruct (t2 - t1 <? 60000000) eqn:E; [|apply Z.ltb_ge in E; lia].
  replace (10 <? error_count h3 + 1) with true in H2
    by (symmetry; apply Z.ltb_lt; lia).
  exfalso. apply H2. reflexivity.
Qed.

Lemma error_boxes_are_a_minute_apart_witness :
  let call := ("t", "m", @None string) in
  let pre := repeat (0, call) 9 in
  70000000 - 1000000 >= 60000000.
Proof.
  intros call pre.
  apply (error_boxes_are_a_minute_apart ErrorHandler_init pre
           1000000 call [(2000000, call)] 70000000 call).
  - vm_compute. discriminate.
  - vm_compute. repeat constructor.
  - vm_compute. discriminate.
  - vm_compute. lia.
Defined.

(* ===================================================================== *)
(** * Properties of the entries as dictionaries and of the table *)
(* ===================================================================== *)

(** ** to_dict and from_dict *)

Lemma status_of_text_status_text (s : Status) :
  status_of_text (status_text s) = Some s.
Proof. destruct s; vm_compute; reflexivity. Qed.

(** X16.  [from_dict(item.to_dict())] raises nothing and builds an
    instance that is the item again, attribute by attribute. *)
Theorem from_dict_to_dict (it : FileItem) :
  exists r, from_dict (to_dict it) = Some r /\ typed r = Some it.
Proof.
  destruct it as [n p d sz fc st c].
  eexists. split; [reflexivity|].
  unfold typed. cbn [raw_name raw_path raw_is_directory raw_size
                     raw_file_count raw_status raw_checked with_default
                     pyget to_dict String.eqb Ascii.eqb Bool.eqb
                     name path is_directory size file_count status checked].
  destruct sz, fc; cbn [py_optional_int optional_int_of];
    rewrite status_of_text_status_text; reflexivity.
Qed.

(** ** The table after a scan *)

Lemma scan_entries_fresh root es : forall s,
  Forall (fun e => exists nm p, e = FileFound (new_FileItem nm p))
         (fst (scan_entries root es file_found_body s)).
Proof.
  induction es as [|[nm c] es IH]; intros s; [constructor|].
  cbn [scan_entries]. unfold bind at 1.
  destruct (get_stopped s) as [[|] s1]; [constructor|].
  destruct (is_dir c); [|apply IH].
  unfold bind at 1, file_found_body at 1, bind at 1.
  destruct (get_stopped s1) as [[|] s2]; [constructor|].
  cbn [ret]. unfold bind. specialize (IH s2).
  destruct (scan_entries root es file_found_body s2) as [l s3].
  cbn [fst ret] in *. constructor; [|exact IH].
  eexists. eexists. reflexivity.
Qed.

Lemma scan_worker_fresh fs p s :
  Forall (fun e => match e with
                   | FileFound it => exists nm q, it = new_FileItem nm q
                   | _ => True
                   end)
         (fst (ScanWorker_run fs p s)).
Proof.
  unfold ScanWorker_run, scan_directory, bind.
  destruct (clear_stopped s) as [u s0].
  destruct (scandir fs p) as [es|]; [|repeat constructor].
  pose proof (scan_entries_fresh p es s0) as H.
  destruct (scan_entries p es file_found_body s0) as [l s1].
  cbn [ret]. destruct (get_stopped s1) as [b s2]. cbn [fst ret] in *.
  apply Forall_app. split; [|repeat constructor].
  eapply Forall_impl; [|exact H]. cbn.
  intros e (nm & q & ->). eexists. eexists. reflexivity.
Qed.

Lemma table_after_scan_items evs : forall acc : table,
  fold_left (fun d e => match e with FileFound it => add_item it d | _ => d end)
            evs acc
  = acc ++ flat_map (fun e => match e with FileFound it => [it] | _ => [] end)
             evs.
Proof.
  induction evs as [|e evs IH]; intros acc.
  - cbn. rewrite app_nil_r. reflexivity.
  - cbn [fold_left flat_map]. rewrite IH.
    destruct e; cbn [app]; [unfold add_item; rewrite <- app_assoc|..];
      reflexivity.
Qed.

(** X18.  Whatever the scan did (listed everything, was stopped, or
    failed), the table it leaves holds only entries that are not computed:
    the total size is 0, shown as "0.00 B", the total file count is 0, no
    row is checked, and each row shows the text for a size not computed
    next to a file count of "0". *)
Theorem table_after_scan_is_not_computed fs p s d0 :
  let d := table_after_scan (fst (ScanWorker_run fs p s)) d0 in
  get_total_size d = (0, "0.00 B") /\
  get_total_files d = 0 /\
  get_checked_items d = [] /\
  Forall (fun it => display 2 it = Some NOT_COMPUTED_TEXT /\
                    display 3 it = Some "0" /\
                    display 4 it = Some NOT_COMPUTED_TEXT) d.
Proof.
  cbv zeta. unfold table_after_scan. rewrite table_after_scan_items.
  cbn [clear app].
  pose proof (scan_worker_fresh fs p s) as H.
  induction H as [|e evs He Hevs IH]; [repeat split; constructor|].
  destruct e as [it|b|]; cbn [flat_map app]; try exact IH.
  destruct He as (nm & q & ->).
  destruct IH as (Hsize & Hfiles & Hchecked & Hrows).
  unfold get_total_size, get_total_files, get_checked_items in *.
  cbn [fold_right filter new_FileItem size file_count checked or_zero].
  injection Hsize as Hsize. rewrite Hsize, Hfiles, Hchecked.
  repeat split. constructor; [|exact Hrows]. repeat split.
Qed.

(** ** Checking every row, and calculate_selected *)

Lemma select_all_checked d :
  get_checked_items (_on_select_all_changed Checked d)
  = _on_select_all_changed Checked d.
Proof.
  unfold get_checked_items, _on_select_all_changed.
  induction d as [|it d IH]; [reflexivity|].
  cbn [map filter set_checked checked]. rewrite IH. reflexivity.
Qed.

Lemma select_all_unchecked state d :
  state <> Checked ->
  get_checked_items (_on_select_all_changed state d) = [].
Proof.
  intros Hs. unfold get_checked_items, _on_select_all_changed.
  destruct state; [| |contradiction];
    induction d as [|it d IH]; try reflexivity;
    cbn [map filter set_checked checked]; exact IH.
Qed.

(** X19.  After the select-all box was set to a state other than checked
    (unchecked or partially checked), no row is checked and
    [calculate_selected] starts nothing: it shows a dialog, the error is
    counted, the window keeps its worker and the scanner is not touched.
    After the box was set to checked on a table that is not empty,
    [calculate_selected] hands every row, checked, to [_start_worker] in a
    [CalculateWorker] and shows no dialog. *)
Theorem calculate_selected_after_select_all
    fs de now (d : table) h mw s state :
  (state <> Checked ->
   exists dlg,
     calculate_selected fs de now (_on_select_all_changed state d) h mw s
     = (Some dlg, snd (handle_error now h), ([], mw), s) /\
     error_count (snd (handle_error now h)) = error_count h + 1) /\
  (d <> [] ->
   calculate_selected fs de now (_on_select_all_changed Checked d) h mw s
   = (let '(r, s') :=
        _start_worker fs de mw
          (CalculateWorker (map (set_checked true) d)) s in
      (None, h, r, s'))).
Proof.
  split.
  - intros Hs. unfold calculate_selected.
    rewrite (select_all_unchecked state d Hs).
    unfold show_error.
    assert (Hc : error_count (snd (handle_error now h)) = error_count h + 1).
    { unfold handle_error. destruct (last_error_time h) as [t|];
        [|reflexivity].
      destruct ((now - t <? 60000000) && (10 <? error_count h + 1));
        reflexivity. }
    destruct (handle_error now h) as [[|] h']; cbn [snd] in *;
      eexists; (split; [reflexivity|exact Hc]).
  - intros Hd. unfold calculate_selected. rewrite select_all_checked.
    destruct d as [|it d]; [contradiction|].
    cbn [_on_select_all_changed map]. unfold bind.
    destruct (_start_worker fs de mw
                (CalculateWorker (set_checked true it
                                  :: map (set_checked true) d)) s)
      as [r s']. reflexivity.
Qed.

Lemma calculate_selected_after_select_all_witness :
  let d := [new_FileItem "a" "/r/a"; new_FileItem "b" "/r/b"] in
  (exists dlg,
     calculate_selected (fs_at "/r" tree_two_files) empty_destination 5
       (_on_select_all_changed PartiallyChecked d) ErrorHandler_init
       {| _current_worker := None |} idle
     = (Some dlg, snd (handle_error 5 ErrorHandler_init),
        ([], {| _current_worker := None |}), idle) /\
     error_count (snd (handle_error 5 ErrorHandler_init))
     = error_count ErrorHandler_init + 1) /\
  calculate_selected (fs_at "/r" tree_two_files) empty_destination 5
    (_on_select_all_changed Checked d) ErrorHandler_init
    {| _current_worker := None |} idle
  = (let '(r, s') :=
       _start_worker (fs_at "/r" tree_two_files) empty_destination
         {| _current_worker := None |}
         (CalculateWorker (map (set_checked true) d)) idle in
     (None, ErrorHandler_init, r, s')).
Proof.
  intros d.
  pose proof (calculate_selected_after_select_all
                (fs_at "/r" tree_two_files) empty_destination 5 d
                ErrorHandler_init {| _current_worker := None |} idle
                PartiallyChecked) as [H1 _].
  pose proof (calculate_selected_after_select_all
                (fs_at "/r" tree_two_files) empty_destination 5 d
                ErrorHandler_init {| _current_worker := None |} idle
                Checked) as [_ H2].
  split.
  - apply H1. discriminate.
  - apply H2. discriminate.
Defined.

(** ** The percentage shown during a calculation *)

Lemma percent_bounds (cur tot : nat) :
  (1 <= cur <= tot)%nat ->
  0 <= percent cur tot <= 100 /\ (percent cur tot = 100 <-> cur = tot).
Proof.
  intros H. unfold percent.
  assert (Hb : 0 < Z.of_nat tot) by lia.
  split; [split|split].
  - apply Z.div_pos; lia.
  - apply Z.div_le_upper_bound; lia.
  - intros E.
    pose proof (Z.mul_div_le (Z.of_nat cur * 100) (Z.of_nat tot) Hb) as Hle.
    rewrite E in Hle. lia.
  - intros ->. rewrite Z.mul_comm. apply Z.div_mul. lia.
Qed.

Lemma progress_from_range n done : forall i,
  Forall (fun e => match e with
                   | CalcProgress _ cur tot =>
                       tot = n /\ (i <= cur < i + List.length done)%nat
                   | _ => True
                   end)
         (progress_from i n done).
Proof.
  induction done as [|it done IH]; intros i; [constructor|].
  cbn [progress_from List.length]. constructor.
  - split; [reflexivity|lia].
  - eapply Forall_impl; [|apply (IH (S i))]. cbn.
    intros [it' cur tot| |]; [|trivial..]. intros [-> Hr]. split; [reflexivity|lia].
Qed.

(** X20.  Every progress signal of a calculation batch, cancelled or not,
    carries a position between 1 and the length of the batch, so the
    percentage that [_on_calculate_progress] puts on the bar lies between 0
    and 100, and it is 100 only for the signal of the last entry of the
    batch. *)
Theorem progress_percentage_is_bounded fs items s :
  Forall (fun e => match e with
                   | CalcProgress _ cur tot =>
                       tot = List.length items /\
                       (1 <= cur <= tot)%nat /\
                       0 <= percent cur tot <= 100 /\
                       (percent cur tot = 100 <-> cur = tot)
                   | _ => True
                   end)
         (snd (fst (CalculateWorker_run fs items s))).
Proof.
  unfold CalculateWorker_run, bind.
  destruct (calc_loop_prefix fs items 1 (List.length items) s)
    as (done & Hitems & Hids & Hevs).
  destruct (calc_loop fs items 1 (List.length items) s) as [[its evs] s'].
  cbn [fst snd ret] in *. subst evs.
  assert (Hlen : (List.length done <= List.length items)%nat).
  { apply Forall2_length in Hids. rewrite Hids, length_firstn. lia. }
  apply Forall_app. split; [|repeat constructor].
  eapply Forall_impl; [|apply progress_from_range]. cbn.
  intros [it cur tot| |]; [|trivial..]. intros [-> Hr].
  assert (Hc : (1 <= cur <= List.length items)%nat) by lia.
  destruct (percent_bounds cur (List.length items) Hc) as [Hb Hiff].
  repeat split; try lia; apply Hiff.
Qed.

(** ** _format_speed *)

Lemma speed_loop_spec (fuel : nat) :
  forall (q : Q) (k : nat),
    (fuel + k = 3)%nat ->
    exists (j : nat) (q' : Q),
      speed_loop fuel q k = (q', (k + j)%nat) /\
      (j <= fuel)%nat /\
      (q' == q / inject_Z (1024 ^ Z.of_nat j))%Q /\
      (j = 0%nat \/ (1 <= q')%Q) /\
      (j = fuel \/ (q' < 1024)%Q).
Proof.
  induction fuel as [|fuel IH]; intros q k Hk.
  - exists 0%nat, q. cbn [speed_loop]. rewrite Nat.add_0_r.
    repeat split; try (left; reflexivity); try lia.
    change (inject_Z (1024 ^ Z.of_nat 0)) with 1%Q. field.
  - cbn [speed_loop]. cbn [speed_units List.length].
    replace (k <? 4 - 1)%nat with true
      by (symmetry; apply Nat.ltb_lt; lia).
    rewrite andb_true_r.
    destruct (Qle_bool 1024 q) eqn:B.
    + apply Qle_bool_iff in B.
      destruct (IH (q / 1024)%Q (S k)) as (j & q' & E & Hj & Hq & Hlo & Hhi);
        [lia|].
      exists (S j), q'. rewrite E.
      replace (S k + j)%nat with (k + S j)%nat by lia.
      assert (Hq' : (q' == q / inject_Z (1024 ^ Z.of_nat (S j)))%Q).
      { rewrite Hq, inject_pow1024_succ.
        pose proof (inject_pow1024_nonzero j). field. assumption. }
      repeat split; try lia; try assumption.
      * right. destruct Hlo as [->|Hlo]; [|exact Hlo].
        rewrite Hq. change (inject_Z (1024 ^ Z.of_nat 0)) with 1%Q.
        assert (q / 1024 / 1 == q / 1024)%Q as -> by field.
        apply Qle_shift_div_l; [reflexivity|]. lra.
      * destruct Hhi as [->|Hhi]; [left; reflexivity|right; exact Hhi].
    + exists 0%nat, q. rewrite Nat.add_0_r.
      repeat split; try (left; reflexivity); try lia.
      * change (inject_Z (1024 ^ Z.of_nat 0)) with 1%Q. field.
      * right. apply Qnot_le_lt. intros H. apply Qle_bool_iff in H. congruence.
Qed.

Lemma speed_bounds (q : Q) (j : nat) (q' : Q) :
  (q' == q / inject_Z (1024 ^ Z.of_nat j))%Q ->
  ((1 <= q')%Q -> (inject_Z (1024 ^ Z.of_nat j) <= q)%Q) /\
  ((q' < 1024)%Q -> (q < inject_Z (1024 ^ Z.of_nat (S j)))%Q).
Proof.
  intros Hq.
  pose proof (inject_pow1024_nonzero j) as Hnz.
  assert (Hpos : (0 < inject_Z (1024 ^ Z.of_nat j))%Q).
  { change 0%Q with (inject_Z 0). rewrite <- Zlt_Qlt. apply pow1024_pos. }
  assert (Hn : (q == q' * inject_Z (1024 ^ Z.of_nat j))%Q).
  { rewrite Hq. field. exact Hnz. }
  split; intros H.
  - rewrite Hn.
    apply (Qmult_le_compat_r _ _ (inject_Z (1024 ^ Z.of_nat j))) in H;
      [|apply Qlt_le_weak; exact Hpos].
    lra.
  - rewrite inject_pow1024_succ, Hn.
    apply (Qmult_lt_compat_r _ _ (inject_Z (1024 ^ Z.of_nat j))) in H;
      [|exact Hpos].
    exact H.
Qed.

(** X21.  [_format_speed] gives "0.0 B/s" for 0, "1.5 KB/s" for 1536 and
    "1024.0 GB/s" for 1024^4: the table of units ends at GB/s.  For every
    speed that is not negative the text is the value [q / 1024^k] rounded
    to one decimal ([t] tenths, within half a tenth of the value) followed
    by the [k]-th unit of B/s, KB/s, MB/s, GB/s, where [k] is the largest
    index with [1024^k <= q], or 0 below 1024, or 3 from 1024^4 on. *)
Theorem format_speed_units :
  _format_speed 0 = "0.0 B/s" /\
  _format_speed 1536 = "1.5 KB/s" /\
  _format_speed (inject_Z (1024 ^ 4)) = "1024.0 GB/s" /\
  forall q : Q, (0 <= q)%Q ->
    exists (k : nat) (t : Z),
      (k <= 3)%nat /\
      (k = 0%nat \/ (inject_Z (1024 ^ Z.of_nat k) <= q)%Q) /\
      (k = 3%nat \/ (q < inject_Z (1024 ^ Z.of_nat (S k)))%Q) /\
      (Qabs (inject_Z t - 10 * (q / inject_Z (1024 ^ Z.of_nat k))) <= 1 # 2)%Q /\
      _format_speed q =
        ((digits (t / 10) ++ "." ++ digits (t mod 10))
         ++ " " ++ nth k speed_units EmptyString)%string.
Proof.
  repeat (split; [vm_compute; reflexivity|]).
  intros q Hq.
  destruct (speed_loop_spec 3 q 0 eq_refl)
    as (j & q' & E & Hj & Hq' & Hlo & Hhi).
  destruct (speed_bounds q j q' Hq') as [Hge Hlt].
  exists j, (round_half_even (q' * 10)).
  split; [exact Hj|]. split; [|split; [|split]].
  - destruct Hlo as [->|Hlo]; [left; reflexivity|right; auto].
  - destruct Hhi as [->|Hhi]; [left; reflexivity|right; auto].
  - apply Qabs_Qle_condition.
    pose proof (round_half_even_close (q' * 10)) as Hc.
    rewrite <- Hq'. lra.
  - unfold _format_speed. cbn [speed_units List.length Nat.sub].
    rewrite E. reflexivity.
Qed.

Lemma format_speed_units_witness :
  exists (k : nat) (t : Z),
    (k <= 3)%nat /\
    (k = 0%nat \/ (inject_Z (1024 ^ Z.of_nat k) <= 5000000)%Q) /\
    (k = 3%nat \/ (5000000 < inject_Z (1024 ^ Z.of_nat (S k)))%Q) /\
    (Qabs (inject_Z t - 10 * (5000000 / inject_Z (1024 ^ Z.of_nat k)))
     <= 1 # 2)%Q /\
    _format_speed 5000000 =
      ((digits (t / 10) ++ "." ++ digits (t mod 10))
       ++ " " ++ nth k speed_units EmptyString)%string.
Proof.
  apply (proj2 (proj2 (proj2 format_speed_units)) 5000000%Q).
  discriminate.
Defined.
